(** * A weird ray tracer: the tracing pipeline of [main.cc] and [vector3.hpp]

    The C++ program computes with [float].  It is embedded here over the
    IEEE 754 binary32 format as the Standard Library's [SpecFloat] specifies
    it: 24 bits of precision, exponent of the infinities 128, rounding to
    nearest even, signed zeros, infinities and a NaN.  Every arithmetic
    operation of the source is one operation of the format, rounded once
    (no fused multiply-add, no wider intermediate results), and every
    comparison is false when an operand is a NaN.

    All definitions are executable: a scene is traced with [vm_compute]. *)

From Stdlib Require Import ZArith List Bool Lia.
From Stdlib Require Import SpecFloat.
From Stdlib Require Ascii String DecimalString.
Import ListNotations.

Local Open Scope Z_scope.

(** ** The element type [float] *)

Module F32.

Definition prec : Z := 24.
Definition emax : Z := 128.

Definition float : Type := spec_float.

Definition add : float -> float -> float := SFadd prec emax.
Definition sub : float -> float -> float := SFsub prec emax.
Definition mul : float -> float -> float := SFmul prec emax.
Definition div : float -> float -> float := SFdiv prec emax.
Definition sqrt : float -> float := SFsqrt prec emax.
Definition opp : float -> float := SFopp.

(** The comparisons of C++: each is false as soon as an operand is a NaN. *)
Definition ltb (a b : float) : bool := SFltb a b.
Definition leb (a b : float) : bool := SFleb a b.
Definition gtb (a b : float) : bool := SFltb b a.
Definition eqb (a b : float) : bool := SFeqb a b.

(** Conversion of an [int] operand, as in [norm * 2] or [l_cos <= 0]. *)
Definition of_int (n : Z) : float := binary_normalize prec emax n 0 false.

(** Conversion of a [double] to [float], as in [Vector3f(0.3)]. *)
Definition of_double (d : spec_float) : float :=
  match d with
  | S754_finite s m e => binary_round prec emax s m e
  | _ => d
  end.

(** The [double] literal [0.3]: the binary64 number nearest to 3/10. *)
Definition double_0_3 : spec_float :=
  SFdiv 53 1024 (binary_normalize 53 1024 3 0 false)
                (binary_normalize 53 1024 10 0 false).

(** [numeric_limits<float>::infinity()] and [numeric_limits<float>::epsilon()]
    (the latter is 2^-23). *)
Definition infinity : float := S754_infinity false.
Definition epsilon : float := S754_finite false 8388608 (-46).

Definition nan : float := S754_nan.

Definition is_nan (a : float) : bool :=
  match a with S754_nan => true | _ => false end.

(** A number of the format: finite numbers have a canonical mantissa and an
    exponent in range. *)
Definition valid (a : float) : bool := valid_binary prec emax a.

End F32.

Abbreviation float := F32.float.

Declare Scope f32_scope.
Delimit Scope f32_scope with f32.
Bind Scope f32_scope with F32.float.
Infix "+" := F32.add : f32_scope.
Infix "-" := F32.sub : f32_scope.
Infix "*" := F32.mul : f32_scope.
Infix "/" := F32.div : f32_scope.
Notation "- a" := (F32.opp a) : f32_scope.
Infix "<?" := F32.ltb : f32_scope.
Infix "<=?" := F32.leb : f32_scope.
Infix ">?" := F32.gtb : f32_scope.
Infix "=?" := F32.eqb : f32_scope.

(** ** [vector3.hpp]: [Vector3<float>] *)

Record Vector3f : Type := mkVector3 { x : float; y : float; z : float }.

Module Vector3.

(** [Vector3(const T &scalar)] *)
Definition splat (scalar : float) : Vector3f := mkVector3 scalar scalar scalar.

(** [operator+], [operator-] and the componentwise [operator*] *)
Definition add (a other : Vector3f) : Vector3f :=
  mkVector3 (x a + x other)%f32 (y a + y other)%f32 (z a + z other)%f32.

Definition sub (a other : Vector3f) : Vector3f :=
  mkVector3 (x a - x other)%f32 (y a - y other)%f32 (z a - z other)%f32.

Definition mul (a other : Vector3f) : Vector3f :=
  mkVector3 (x a * x other)%f32 (y a * y other)%f32 (z a * z other)%f32.

(** [operator*] and [operator/] with a scalar on the right *)
Definition scale (a : Vector3f) (scalar : float) : Vector3f :=
  mkVector3 (x a * scalar)%f32 (y a * scalar)%f32 (z a * scalar)%f32.

Definition div_scalar (a : Vector3f) (scalar : float) : Vector3f :=
  mkVector3 (x a / scalar)%f32 (y a / scalar)%f32 (z a / scalar)%f32.

(** unary [operator-] *)
Definition neg (vec : Vector3f) : Vector3f :=
  mkVector3 (- x vec)%f32 (- y vec)%f32 (- z vec)%f32.

Definition dot (a other : Vector3f) : float :=
  (x a * x other + y a * y other + z a * z other)%f32.

Definition sqr_length (a : Vector3f) : float := dot a a.

Definition length (a : Vector3f) : float := F32.sqrt (sqr_length a).

Definition normalized (a : Vector3f) : Vector3f := div_scalar a (length a).

End Vector3.

Declare Scope vec_scope.
Delimit Scope vec_scope with vec.
Bind Scope vec_scope with Vector3f.
Infix "+" := Vector3.add : vec_scope.
Infix "-" := Vector3.sub : vec_scope.
Infix "*" := Vector3.mul : vec_scope.
Notation "- a" := (Vector3.neg a) : vec_scope.

(** The free functions of [vector3.hpp]. *)

Definition dot (a b : Vector3f) : float :=
  (x a * x b + y a * y b + z a * z b)%f32.

Definition sqr_length (vector : Vector3f) : float := dot vector vector.

Definition length (vector : Vector3f) : float := F32.sqrt (sqr_length vector).

Definition sqr_distance (a b : Vector3f) : float := sqr_length (a - b)%vec.

Definition distance (a b : Vector3f) : float := F32.sqrt (sqr_distance a b).

Definition normalize (vector : Vector3f) : Vector3f :=
  let length := Vector3.length vector in
  if (length <? F32.epsilon)%f32 then vector
  else Vector3.div_scalar vector length.

(** [operator==] and [operator!=] of [Vector3]; on [float], [!=] is the
    negation of [==], true as soon as an operand is a NaN. *)
Definition neb (a b : float) : bool := negb (a =? b)%f32.

Definition Vector3_eq (a other : Vector3f) : bool :=
  (x a =? x other)%f32 && (y a =? y other)%f32 && (z a =? z other)%f32.

Definition Vector3_ne (a other : Vector3f) : bool :=
  neb (x a) (x other) || neb (y a) (y other) || neb (z a) (z other).

(** ** [main.cc]: rays, hits, objects and the scene *)

Abbreviation Point := Vector3f.
Abbreviation Color := Vector3f.

Record Ray : Type := mkRay { org : Point; dir : Vector3f }.

(** [struct Sphere : Object].  [Sphere] is the only class derived from the
    abstract [Object], so an [Object] of a scene is a sphere: the members of
    the base class ([pos], [surface_color], [emission_color]) and [radius],
    in the order of the constructor's parameters. *)
Record Sphere : Type := mkSphere {
  pos : Point;
  radius : float;
  surface_color : Color;
  emission_color : Color
}.

Abbreviation Object := Sphere.

(** [struct Hit]; [obj] points to an object of the scene, which is immutable
    while a ray is traced, so the hit carries the object itself.  The member
    [pos] of the hit is [hit_pos] here. *)
Record Hit : Type := mkHit { hit_pos : Point; norm : Vector3f; obj : Object }.

Record Scene : Type := mkScene { objs : list Object }.

(** [Sphere::intersect]; [nullptr] is [None]. *)
Definition intersect (this : Sphere) (ray : Ray) : option Hit :=
  let l := (pos this - org ray)%vec in
  let l_cos := Vector3.dot l (dir ray) in
  if (l_cos <=? F32.of_int 0)%f32 then None
  else
    let l_sin_sqr := (Vector3.sqr_length l - l_cos * l_cos)%f32 in
    if (l_sin_sqr >? radius this * radius this)%f32 then None
    else
      let distance :=
        (l_cos - F32.sqrt (radius this * radius this - l_sin_sqr))%f32 in
      let hit_pos := (org ray + Vector3.scale (dir ray) distance)%vec in
      Some (mkHit hit_pos (Vector3.normalized (hit_pos - pos this)%vec) this).

(** ** [trace] *)

(** The loop over [scene.objs]: one iteration, on the pair
    ([first_hit], [min_distance]). *)
Definition nearest_step (ray : Ray) (st : option Hit * float) (o : Object)
  : option Hit * float :=
  match intersect o ray with
  | Some hit =>
      let distance := distance (org ray) (hit_pos hit) in
      if (distance <? snd st)%f32 then (Some hit, distance) else st
  | None => st
  end.

Definition nearest_loop (ray : Ray) (os : list Object)
  (st : option Hit * float) : option Hit * float :=
  fold_left (nearest_step ray) os st.

(** [first_hit] when the loop is over. *)
Definition nearest_hit (ray : Ray) (scene : Scene) : option Hit :=
  fst (nearest_loop ray (objs scene) (None, F32.infinity)).

(** The orientation of the normal: lines 220 to 223. *)
Definition orient (ray : Ray) (first_hit : Hit) : Hit :=
  if (Vector3.dot (dir ray) (norm first_hit) >? F32.of_int 0)%f32
  then mkHit (hit_pos first_hit) (- norm first_hit)%vec (obj first_hit)
  else first_hit.

Definition reflect_ray (ray : Ray) (first_hit : Hit) : Ray :=
  mkRay (hit_pos first_hit)
        (dir ray -
         Vector3.scale (Vector3.scale (norm first_hit) (F32.of_int 2))
                       (Vector3.dot (dir ray) (norm first_hit)))%vec.

(** [Vector3f(0.3)] *)
Definition bias : Color := Vector3.splat (F32.of_double F32.double_0_3).

(** [Color(0)] *)
Definition background : Color := Vector3.splat (F32.of_int 0).

(** [trace] calls itself; [fuel] bounds the number of nested activations
    (the call at hand included) and [None] is returned only when it is
    used up.

    [Color surface_color;] runs the constructor [Vector3() {}], which
    initialises no component: when [max_depth > 0] is false the variable is
    read as it was left.  [uninit] is that indeterminate value. *)
Fixpoint trace_fuel (fuel : nat) (uninit : Color) (ray : Ray) (scene : Scene)
  (max_depth : Z) : option Color :=
  match fuel with
  | O => None
  | S fuel' =>
      match nearest_hit ray scene with
      | Some first_hit =>
          let first_hit := orient ray first_hit in
          if 0 <? max_depth then
            match trace_fuel fuel' uninit (reflect_ray ray first_hit) scene
                             (max_depth - 1) with
            | Some reflection =>
                Some ((reflection * surface_color (obj first_hit) + bias)
                      + emission_color (obj first_hit))%vec
            | None => None
            end
          else Some (uninit + emission_color (obj first_hit))%vec
      | None => Some background
      end
  end.

(** [trace] with the fuel a budget of [max_depth] needs. *)
Definition trace (uninit : Color) (ray : Ray) (scene : Scene) (max_depth : Z)
  : option Color :=
  trace_fuel (S (Z.to_nat max_depth)) uninit ray scene max_depth.

(** ** [Camera] *)

(** [struct Camera]; the member [pos] of the camera is [camera_pos] here.
    [factor] is the tangent of half the field of view, computed by the
    constructors. *)
Record Camera : Type := mkCamera { factor : float; camera_pos : Point }.

(** [Camera::primary_ray] *)
Definition primary_ray (camera : Camera) (x y : float) : Ray :=
  let x := (x * factor camera)%f32 in
  let y := (y * factor camera)%f32 in
  mkRay (camera_pos camera)
        (Vector3.normalized (mkVector3 x y (F32.of_int (-1)))).

(** ** [Canvas] *)

(** [struct Canvas]: [pixel] is a vector of [width] columns of [height]
    colours each, [pixel[i][j]] being column [i], row [j]. *)
Record Canvas : Type := mkCanvas {
  width : Z;
  height : Z;
  pixel : list (list Color)
}.

(** The constructor.  A negative size makes the constructor of the vector
    or [resize] throw ([None]); the colours are default-constructed, that
    is, left as they are: [uninit i j] is what [pixel[i][j]] holds. *)
Definition Canvas_new (uninit : nat -> nat -> Color) (width height : Z)
  : option Canvas :=
  if (width <? 0) || ((0 <? width) && (height <? 0)) then None
  else Some (mkCanvas width height
               (map (fun i => map (uninit i) (seq 0 (Z.to_nat height)))
                    (seq 0 (Z.to_nat width)))).

(** [Canvas::aspect_ratio] *)
Definition aspect_ratio (c : Canvas) : float :=
  (F32.of_int (width c) / F32.of_int (height c))%f32.

(** [float inv = 1.0 / n]: a division of [double], converted to [float]. *)
Definition inv_size (n : Z) : float :=
  F32.of_double (SFdiv 53 1024 (binary_normalize 53 1024 1 0 false)
                               (binary_normalize 53 1024 n 0 false)).

(** The coordinates [Canvas::draw] hands to [render] for column [i] and
    row [j]. *)
Definition pixel_x (c : Canvas) (i : Z) : float :=
  ((F32.of_int i * inv_size (width c) * F32.of_int 2 - F32.of_int 1)
   * aspect_ratio c)%f32.

Definition pixel_y (c : Canvas) (j : Z) : float :=
  (F32.of_int 1 - F32.of_int 2 * (F32.of_int j * inv_size (height c)))%f32.

(** [l[n] = a]; the access is undefined ([None]) out of range. *)
Definition list_set {A : Type} (l : list A) (n : nat) (a : A)
  : option (list A) :=
  if (n <? List.length l)%nat
  then Some (firstn n l ++ a :: skipn (S n) l)
  else None.

(** [pixel[i][j] = c] *)
Definition set_pixel (pixel : list (list Color)) (i j : nat) (c : Color)
  : option (list (list Color)) :=
  match nth_error pixel i with
  | Some col =>
      match list_set col j c with
      | Some col' => list_set pixel i col'
      | None => None
      end
  | None => None
  end.

(** The inner loop of [Canvas::draw], over the rows [js] of column [i]. *)
Fixpoint draw_rows (render : float -> float -> Color) (c : Canvas) (i : nat)
  (js : list nat) (pixel : list (list Color)) : option (list (list Color)) :=
  match js with
  | [] => Some pixel
  | j :: js' =>
      let x := pixel_x c (Z.of_nat i) in
      let y := pixel_y c (Z.of_nat j) in
      match set_pixel pixel i j (render x y) with
      | Some pixel' => draw_rows render c i js' pixel'
      | None => None
      end
  end.

(** The outer loop, over the columns [cols]. *)
Fixpoint draw_cols (render : float -> float -> Color) (c : Canvas)
  (cols : list nat) (pixel : list (list Color))
  : option (list (list Color)) :=
  match cols with
  | [] => Some pixel
  | i :: cols' =>
      match draw_rows render c i (seq 0 (Z.to_nat (height c))) pixel with
      | Some pixel' => draw_cols render c cols' pixel'
      | None => None
      end
  end.

(** [Canvas::draw] *)
Definition draw (c : Canvas) (render : float -> float -> Color)
  : option Canvas :=
  option_map (mkCanvas (width c) (height c))
    (draw_cols render c (seq 0 (Z.to_nat (width c))) (pixel c)).

(** ** [Canvas::save]: one channel of a pixel *)

(** [min(1.0f, p)], which is [std::min]: the second argument when it is
    below the first, the first otherwise. *)
Definition fmin (a b : float) : float := if (b <? a)%f32 then b else a.

(** The conversion of a [float] to [unsigned char]: the value is truncated
    towards 0; the conversion is undefined ([None]) when the truncated
    value is not one of 0..255, and for the infinities and NaN. *)
Definition to_uchar (a : float) : option Z :=
  match a with
  | S754_zero _ => Some 0
  | S754_finite s m e =>
      let t := cond_Zopp s (Z.shiftl (Z.pos m) e) in
      if (0 <=? t) && (t <=? 255) then Some t else None
  | _ => None
  end.

(** [(unsigned char)(min(1.0f, p) * 255)] *)
Definition channel (p : float) : option Z :=
  to_uchar (fmin (F32.of_int 1) p * F32.of_int 255)%f32.

(** ** [Canvas::save]: what is written to the stream *)

Section Header.

Import String.
Local Open Scope string_scope.

(** An [int] as [operator<<] prints it. *)
Definition decimal_of_int (n : Z) : list Ascii.ascii :=
  list_ascii_of_string (DecimalString.NilZero.string_of_int (Z.to_int n)).

(** [endl] *)
Definition endl : list Ascii.ascii := [Ascii.ascii_of_nat 10].

(** ["P6" << endl << width << " " << height << endl << "255" << endl] *)
Definition header (c : Canvas) : list Ascii.ascii :=
  list_ascii_of_string "P6" ++ endl ++
  decimal_of_int (width c) ++ list_ascii_of_string " " ++
  decimal_of_int (height c) ++ endl ++
  list_ascii_of_string "255" ++ endl.

End Header.

(** The character [operator<<] writes for an [unsigned char]. *)
Definition put_uchar (b : Z) : Ascii.ascii := Ascii.ascii_of_N (Z.to_N b).

(** [pixel[i][j]]; the access is undefined ([None]) out of range. *)
Definition pixel_at (c : Canvas) (i j : nat) : option Color :=
  match nth_error (pixel c) i with
  | Some col => nth_error col j
  | None => None
  end.

(** The three characters of one pixel. *)
Definition save_pixel (p : Color) : option (list Ascii.ascii) :=
  match channel (x p), channel (y p), channel (z p) with
  | Some r, Some g, Some b => Some [put_uchar r; put_uchar g; put_uchar b]
  | _, _, _ => None
  end.

(** The inner loop of [Canvas::save], over the columns [cols] of row [j]. *)
Fixpoint save_row (c : Canvas) (j : nat) (cols : list nat)
  : option (list Ascii.ascii) :=
  match cols with
  | [] => Some []
  | i :: cols' =>
      match pixel_at c i j with
      | Some p =>
          match save_pixel p, save_row c j cols' with
          | Some out, Some out' => Some (out ++ out')
          | _, _ => None
          end
      | None => None
      end
  end.

(** The outer loop, over the rows [rows]. *)
Fixpoint save_rows (c : Canvas) (rows : list nat)
  : option (list Ascii.ascii) :=
  match rows with
  | [] => Some []
  | j :: rows' =>
      match save_row c j (seq 0 (Z.to_nat (width c))), save_rows c rows' with
      | Some out, Some out' => Some (out ++ out')
      | _, _ => None
      end
  end.

(** [Canvas::save]: the characters written to the file, [None] when a
    conversion or an access is undefined. *)
Definition save (c : Canvas) : option (list Ascii.ascii) :=
  option_map (app (header c))
    (save_rows c (seq 0 (Z.to_nat (height c)))).

(** * What the statements are written with *)

(** [trace_fuel] with a log: the budgets handed to the recursive calls, in
    the order the calls are made. *)
Fixpoint trace_log (fuel : nat) (uninit : Color) (ray : Ray) (scene : Scene)
  (max_depth : Z) : option (Color * list Z) :=
  match fuel with
  | O => None
  | S fuel' =>
      match nearest_hit ray scene with
      | Some first_hit =>
          let first_hit := orient ray first_hit in
          if 0 <? max_depth then
            match trace_log fuel' uninit (reflect_ray ray first_hit) scene
                            (max_depth - 1) with
            | Some (reflection, calls) =>
                Some (((reflection * surface_color (obj first_hit) + bias)
                       + emission_color (obj first_hit))%vec,
                      (max_depth - 1) :: calls)
            | None => None
            end
          else Some ((uninit + emission_color (obj first_hit))%vec, [])
      | None => Some (background, [])
      end
  end.

(** The distance the loop compares: from the ray's origin to the hit. *)
Definition hit_distance (ray : Ray) (h : Hit) : float :=
  distance (org ray) (hit_pos h).

(** What the loop has established once the objects [seen] are behind it. *)
Definition nearest_inv (ray : Ray) (seen : list Object)
  (st : option Hit * float) : Prop :=
  match fst st with
  | None =>
      snd st = F32.infinity /\
      forall o h, In o seen -> intersect o ray = Some h ->
        (hit_distance ray h <? F32.infinity)%f32 = false
  | Some best =>
      snd st = hit_distance ray best /\
      (hit_distance ray best <? F32.infinity)%f32 = true /\
      exists i o,
        nth_error seen i = Some o /\ intersect o ray = Some best /\
        (forall j o' h', nth_error seen j = Some o' ->
           intersect o' ray = Some h' ->
           (hit_distance ray h' <? hit_distance ray best)%f32 = false) /\
        (forall j o' h', (j < i)%nat -> nth_error seen j = Some o' ->
           intersect o' ray = Some h' ->
           (hit_distance ray h' =? hit_distance ray best)%f32 = false)
  end.

(** [b] is the negation of [a], but for the sign of a zero: a sum of two
    opposite numbers is +0 whatever their order. *)
Definition negof (a b : float) : Prop :=
  match a, b with
  | S754_zero _, S754_zero _ => True
  | _, _ => b = SFopp a
  end.

(** The order of two finite numbers of the same sign, as [SFcompare] reads
    it off the exponent and the mantissa. *)
Definition fcmp (e1 : Z) (m1 : positive) (e2 : Z) (m2 : positive)
  : comparison :=
  match (e1 ?= e2) with
  | Lt => Lt
  | Gt => Gt
  | Eq => (m1 ?= m2)%positive
  end.

(** No component is a NaN. *)
Definition no_nan (v : Vector3f) : bool :=
  negb (F32.is_nan (x v)) && negb (F32.is_nan (y v)) &&
  negb (F32.is_nan (z v)).

(** Every component is a zero or a finite number. *)
Definition is_finite (a : float) : bool :=
  match a with
  | S754_zero _ | S754_finite _ _ _ => true
  | _ => false
  end.

Definition finite_vector (v : Vector3f) : bool :=
  is_finite (x v) && is_finite (y v) && is_finite (z v).

(** The sign bit is clear, or the number is a NaN. *)
Definition sign_clear (a : float) : Prop :=
  match a with
  | S754_nan => True
  | S754_zero s | S754_infinity s | S754_finite s _ _ => s = false
  end.

(** The chain of reflections that [trace] follows from [ray] ends on a hit
    with no budget left: the activation that reads the never initialised
    [surface_color] is reached. *)
Fixpoint exhausts (fuel : nat) (ray : Ray) (scene : Scene) (max_depth : Z)
  : bool :=
  match fuel with
  | O => false
  | S fuel' =>
      match nearest_hit ray scene with
      | Some first_hit =>
          if 0 <? max_depth
          then exhausts fuel' (reflect_ray ray (orient ray first_hit)) scene
                        (max_depth - 1)
          else true
      | None => false
      end
  end.

(** The sizes of [pixel] agree with [width] and [height]. *)
Definition Canvas_wf (c : Canvas) : Prop :=
  List.length (pixel c) = Z.to_nat (width c) /\
  Forall (fun col => List.length col = Z.to_nat (height c)) (pixel c).

(** The picture [draw] makes: column [i], row [j] holds what [render]
    returns at the coordinates of that pixel. *)
Definition picture (c : Canvas) (render : float -> float -> Color)
  : list (list Color) :=
  map (fun i =>
         map (fun j => render (pixel_x c (Z.of_nat i))
                              (pixel_y c (Z.of_nat j)))
             (seq 0 (Z.to_nat (height c))))
      (seq 0 (Z.to_nat (width c))).

(** A loop that assigns [f n] to [l[n]] for the indices [ns] in turn. *)
Fixpoint fill {A : Type} (f : nat -> A) (ns : list nat) (l : list A)
  : option (list A) :=
  match ns with
  | [] => Some l
  | n :: ns' =>
      match list_set l n (f n) with
      | Some l' => fill f ns' l'
      | None => None
      end
  end.

(** A colour that [save] can write: every component is a NaN or a number
    of the format with a clear sign bit. *)
Definition displayable (p : Color) : Prop :=
  (F32.valid (x p) = true /\ sign_clear (x p)) /\
  (F32.valid (y p) = true /\ sign_clear (y p)) /\
  (F32.valid (z p) = true /\ sign_clear (z p)).

(** The characters of the pixel [p] are the three of [out] from [k] on. *)
Definition pixel_written (out : list Ascii.ascii) (k : nat) (p : Color)
  : Prop :=
  nth_error out k = option_map put_uchar (channel (x p)) /\
  nth_error out (S k) = option_map put_uchar (channel (y p)) /\
  nth_error out (S (S k)) = option_map put_uchar (channel (z p)).

(** ** Scenes and rays of the scenarios *)

Definition vec3 (a b c : Z) : Vector3f :=
  mkVector3 (F32.of_int a) (F32.of_int b) (F32.of_int c).

(** The ray of the spec's concrete scenario: from the origin along -z. *)
Definition ray_z : Ray := mkRay (vec3 0 0 0) (vec3 0 0 (-1)).

(** A sphere at (0,0,-20) of radius 4, black and without emission; the first
    hit of [ray_z] is at (0,0,-16) and its reflection leaves the scene. *)
Definition black_sphere : Sphere :=
  mkSphere (vec3 0 0 (-20)) (F32.of_int 4) (vec3 0 0 0) (vec3 0 0 0).

(** The [float] a decimal literal [n/d] of type [double] is converted to. *)
Definition decimal (n d : Z) : float :=
  F32.of_double (SFdiv 53 1024 (binary_normalize 53 1024 n 0 false)
                               (binary_normalize 53 1024 d 0 false)).

(** The sphere of the spec's concrete scenario (the second one of [main]). *)
Definition red_sphere : Sphere :=
  mkSphere (vec3 0 0 (-20)) (F32.of_int 4)
           (mkVector3 (F32.of_int 1) (decimal 32 100) (decimal 36 100))
           (vec3 0 0 0).

(** A unit sphere centred at (0,0,-2^127) and a ray towards it from
    (0,0,2^127): the difference of the two positions is beyond the largest
    [float]. *)
Definition far_sphere : Sphere :=
  mkSphere (mkVector3 (F32.of_int 0) (F32.of_int 0) (F32.of_int (- 2 ^ 127)))
           (F32.of_int 1) (vec3 0 0 0) (vec3 0 0 0).

Definition far_ray : Ray :=
  mkRay (mkVector3 (F32.of_int 0) (F32.of_int 0) (F32.of_int (2 ^ 127)))
        (vec3 0 0 (-1)).

(** A sphere of radius 2^-23 at (0,0,-20): along [ray_z] the hit is rounded
    to the centre. *)
Definition tiny_sphere : Sphere :=
  mkSphere (vec3 0 0 (-20)) F32.epsilon (vec3 0 0 0) (vec3 0 0 0).

(** A unit sphere that [ray_z] touches at (0,0,-1). *)
Definition tangent_sphere : Sphere :=
  mkSphere (vec3 0 1 (-1)) (F32.of_int 1) (vec3 0 0 0) (vec3 0 0 0).

(** A ray from the origin along +z: every sphere above is behind it. *)
Definition ray_away : Ray := mkRay (vec3 0 0 0) (vec3 0 0 1).

(** A sphere facing [red_sphere] across the origin: [ray_z] is reflected
    back and forth between the two for ever. *)
Definition back_sphere : Sphere :=
  mkSphere (vec3 0 0 20) (F32.of_int 4) (vec3 1 1 1) (vec3 0 0 0).

(** A black lamp above the axis of [ray_z], in front of [red_sphere]: the
    reflection of [ray_z] on [red_sphere] hits it off its axis and is sent
    out of the scene. *)
Definition lamp : Sphere :=
  mkSphere (vec3 0 3 20) (F32.of_int 4) (vec3 0 0 0) (vec3 3 3 3).

(** The vector (2^-30, 0, 0). *)
Definition small_vector : Vector3f :=
  mkVector3 (S754_finite false 8388608 (-53)) (F32.of_int 0) (F32.of_int 0).

(** * Facts on the comparisons of [float] *)

Section Compare.

Lemma fcmp_antisym e1 m1 e2 m2 :
  fcmp e2 m2 e1 m1 = CompOpp (fcmp e1 m1 e2 m2).
Proof.
  unfold fcmp. rewrite (Z.compare_antisym e1 e2), (Pos.compare_antisym m1 m2).
  destruct (e1 ?= e2); reflexivity.
Qed.

Lemma fcmp_eq e1 m1 e2 m2 :
  fcmp e1 m1 e2 m2 = Eq -> e1 = e2 /\ m1 = m2.
Proof.
  unfold fcmp. destruct (Z.compare_spec e1 e2); try discriminate.
  intros H'. apply Pos.compare_eq in H'. auto.
Qed.

Lemma fcmp_lt_trans e1 m1 e2 m2 e3 m3 :
  fcmp e1 m1 e2 m2 = Lt -> fcmp e2 m2 e3 m3 = Lt -> fcmp e1 m1 e3 m3 = Lt.
Proof.
  unfold fcmp.
  destruct (Z.compare_spec e1 e2), (Z.compare_spec e2 e3),
    (Z.compare_spec e1 e3); try discriminate; try lia; auto.
  intros H12 H23. rewrite Pos.compare_lt_iff in *. lia.
Qed.

Lemma fcmp_gt_lt e1 m1 e2 m2 :
  fcmp e1 m1 e2 m2 = Gt <-> fcmp e2 m2 e1 m1 = Lt.
Proof.
  rewrite (fcmp_antisym e1 m1 e2 m2).
  destruct (fcmp e1 m1 e2 m2); simpl; split; congruence.
Qed.

Lemma SFcompare_finite s1 m1 e1 s2 m2 e2 :
  SFcompare (S754_finite s1 m1 e1) (S754_finite s2 m2 e2) =
  Some (match s1, s2 with
        | true, false => Lt
        | false, true => Gt
        | false, false => fcmp e1 m1 e2 m2
        | true, true => CompOpp (fcmp e1 m1 e2 m2)
        end).
Proof.
  unfold fcmp, Pos.compare. simpl.
  destruct s1, s2; try reflexivity; destruct (e1 ?= e2); reflexivity.
Qed.

Lemma SFcompare_antisym (a b : float) :
  SFcompare b a = option_map CompOpp (SFcompare a b).
Proof.
  destruct a as [sa|sa| |sa ma ea], b as [sb|sb| |sb mb eb].
  16: { rewrite !SFcompare_finite, (fcmp_antisym ea ma eb mb).
        destruct sa, sb; reflexivity. }
  all: try (destruct sa; try destruct sb; reflexivity).
  all: try (destruct sb; reflexivity); try reflexivity.
Qed.

Ltac float_simpl :=
  unfold F32.ltb, F32.eqb, F32.leb, F32.gtb, SFltb, SFeqb, SFleb;
  rewrite ?SFcompare_finite; cbn [SFcompare];
  try discriminate; try reflexivity.

Lemma ltb_trans (a b c : float) :
  (a <? b)%f32 = true -> (b <? c)%f32 = true -> (a <? c)%f32 = true.
Proof.
  destruct a as [[|]|[|]| |[|] ma ea], b as [[|]|[|]| |[|] mb eb],
    c as [[|]|[|]| |[|] mc ec]; float_simpl.
  - destruct (fcmp ea ma eb mb) eqn:H12; try discriminate.
    destruct (fcmp eb mb ec mc) eqn:H23; try discriminate.
    intros _ _. apply fcmp_gt_lt in H12, H23.
    pose proof (fcmp_lt_trans _ _ _ _ _ _ H23 H12) as H13.
    apply fcmp_gt_lt in H13. rewrite H13. reflexivity.
  - destruct (fcmp ea ma eb mb) eqn:H12; try discriminate.
    destruct (fcmp eb mb ec mc) eqn:H23; try discriminate.
    intros _ _. rewrite (fcmp_lt_trans _ _ _ _ _ _ H12 H23). reflexivity.
Qed.

Lemma eqb_ltb_trans (a b c : float) :
  (a =? b)%f32 = true -> (b <? c)%f32 = true -> (a <? c)%f32 = true.
Proof.
  destruct a as [[|]|[|]| |[|] ma ea], b as [[|]|[|]| |[|] mb eb],
    c as [[|]|[|]| |[|] mc ec]; float_simpl.
  - destruct (fcmp ea ma eb mb) eqn:H12; try discriminate.
    apply fcmp_eq in H12 as [-> ->]. auto.
  - destruct (fcmp ea ma eb mb) eqn:H12; try discriminate.
    apply fcmp_eq in H12 as [-> ->]. auto.
Qed.

Lemma ltb_antisym (a b : float) :
  (a <? b)%f32 = true -> (b <? a)%f32 = false.
Proof.
  unfold F32.ltb, SFltb. rewrite (SFcompare_antisym a b).
  destruct (SFcompare a b) as [[| |]|]; simpl; congruence.
Qed.

Lemma eqb_not_gtb (a b : float) :
  (a =? b)%f32 = true -> (a >? b)%f32 = false.
Proof.
  unfold F32.gtb, F32.eqb, SFeqb, SFltb. rewrite (SFcompare_antisym a b).
  destruct (SFcompare a b) as [[| |]|]; simpl; congruence.
Qed.

Lemma gtb_not_leb (a b : float) :
  (a >? b)%f32 = true -> (a <=? b)%f32 = false.
Proof.
  unfold F32.gtb, F32.leb, SFleb, SFltb. rewrite (SFcompare_antisym a b).
  destruct (SFcompare a b) as [[| |]|]; simpl; congruence.
Qed.

End Compare.

(** * The loop that resolves the nearest hit *)

Lemma nth_error_snoc {A : Type} (l : list A) (a b : A) (j : nat) :
  nth_error (l ++ [a]) j = Some b ->
  ((j < List.length l)%nat /\ nth_error l j = Some b) \/
  (j = List.length l /\ b = a).
Proof.
  intros H. destruct (Nat.lt_ge_cases j (List.length l)) as [Hlt|Hge].
  - left. split; [assumption|]. rewrite nth_error_app1 in H; assumption.
  - right. rewrite nth_error_app2 in H by assumption.
    destruct (j - List.length l)%nat as [|k] eqn:Hk.
    + simpl in H. split; [lia | congruence].
    + simpl in H. destruct k; discriminate.
Qed.

Lemma ltb_irrefl (a : float) : (a <? a)%f32 = false.
Proof.
  destruct (a <? a)%f32 eqn:H; [|reflexivity].
  rewrite (ltb_antisym _ _ H) in H. discriminate.
Qed.

Lemma nearest_step_inv ray seen st o :
  nearest_inv ray seen st ->
  nearest_inv ray (seen ++ [o]) (nearest_step ray st o).
Proof.
  destruct st as [best md]. unfold nearest_inv, nearest_step. simpl.
  destruct (intersect o ray) as [hit|] eqn:Hint.
  - fold (hit_distance ray hit).
    destruct (hit_distance ray hit <? md)%f32 eqn:Hlt; simpl.
    + (* the new hit replaces the current best *)
      intros H.
      assert (Hinf : (hit_distance ray hit <? F32.infinity)%f32 = true).
      { destruct best as [b|].
        - destruct H as (-> & Hb & _). eapply ltb_trans; eassumption.
        - destruct H as (-> & _). assumption. }
      split; [reflexivity|]. split; [assumption|].
      exists (List.length seen), o. split.
      { rewrite nth_error_app2 by lia. rewrite Nat.sub_diag. reflexivity. }
      split; [assumption|]. split.
      * intros j o' h' Hj Hh'.
        destruct (hit_distance ray h' <? hit_distance ray hit)%f32 eqn:Hc;
          [exfalso|reflexivity].
        apply nth_error_snoc in Hj as [[Hjl Hj]|[-> ->]].
        -- pose proof (ltb_trans _ _ _ Hc Hlt) as Hc'.
           destruct best as [b|].
           ++ destruct H as (-> & _ & i & ob & _ & _ & Hmin & _).
              rewrite (Hmin j o' h' Hj Hh') in Hc'. discriminate.
           ++ destruct H as (-> & Hnone).
              rewrite (Hnone o' h' (nth_error_In _ _ Hj) Hh') in Hc'.
              discriminate.
        -- rewrite Hint in Hh'. injection Hh' as <-.
           rewrite ltb_irrefl in Hc. discriminate.
      * intros j o' h' Hji Hj Hh'.
        destruct (hit_distance ray h' =? hit_distance ray hit)%f32 eqn:Hc;
          [exfalso|reflexivity].
        apply nth_error_snoc in Hj as [[Hjl Hj]|[-> _]]; [|lia].
        pose proof (eqb_ltb_trans _ _ _ Hc Hlt) as Hc'.
        destruct best as [b|].
        -- destruct H as (-> & _ & i & ob & _ & _ & Hmin & _).
           rewrite (Hmin j o' h' Hj Hh') in Hc'. discriminate.
        -- destruct H as (-> & Hnone).
           rewrite (Hnone o' h' (nth_error_In _ _ Hj) Hh') in Hc'.
           discriminate.
    + (* the current best stays *)
      destruct best as [b|].
      * intros (-> & Hb & i & ob & Hi & Hob & Hmin & Hfirst).
        split; [reflexivity|]. split; [assumption|].
        assert (Hil : (i < List.length seen)%nat).
        { apply nth_error_Some. congruence. }
        exists i, ob. split; [rewrite nth_error_app1; assumption|].
        split; [assumption|]. split.
        -- intros j o' h' Hj Hh'.
           apply nth_error_snoc in Hj as [[Hjl Hj]|[-> ->]]; [eauto|].
           rewrite Hint in Hh'. injection Hh' as <-. assumption.
        -- intros j o' h' Hji Hj Hh'.
           apply nth_error_snoc in Hj as [[Hjl Hj]|[-> _]]; [eauto|lia].
      * intros (-> & Hnone). split; [reflexivity|].
        intros o' h' Hin Hh'. apply in_app_or in Hin as [Hin|[<-|[]]].
        -- eauto.
        -- rewrite Hint in Hh'. injection Hh' as <-. assumption.
  - (* the object is missed *)
    destruct best as [b|]; simpl.
    + intros (-> & Hb & i & ob & Hi & Hob & Hmin & Hfirst).
      split; [reflexivity|]. split; [assumption|].
      assert (Hil : (i < List.length seen)%nat).
      { apply nth_error_Some. congruence. }
      exists i, ob. split; [rewrite nth_error_app1; assumption|].
      split; [assumption|]. split.
      * intros j o' h' Hj Hh'.
        apply nth_error_snoc in Hj as [[Hjl Hj]|[-> ->]]; [eauto|congruence].
      * intros j o' h' Hji Hj Hh'.
        apply nth_error_snoc in Hj as [[Hjl Hj]|[-> _]]; [eauto|lia].
    + intros (-> & Hnone). split; [reflexivity|].
      intros o' h' Hin Hh'. apply in_app_or in Hin as [Hin|[<-|[]]].
      * eauto.
      * congruence.
Qed.

Lemma nearest_loop_inv ray os : forall seen st,
  nearest_inv ray seen st ->
  nearest_inv ray (seen ++ os) (nearest_loop ray os st).
Proof.
  induction os as [|o os IH]; intros seen st Hinv; simpl.
  - rewrite app_nil_r. assumption.
  - replace (seen ++ o :: os) with ((seen ++ [o]) ++ os)
      by (rewrite <- app_assoc; reflexivity).
    apply IH, nearest_step_inv, Hinv.
Qed.

(** * Negation and the dot product *)

Lemma negof_opp (a : float) : negof a (- a)%f32.
Proof. destruct a; simpl; auto. Qed.

Lemma binary_round_aux_opp s m e l :
  SFopp (binary_round_aux F32.prec F32.emax s m e l) =
  binary_round_aux F32.prec F32.emax (negb s) m e l.
Proof.
  unfold binary_round_aux.
  destruct (shr_fexp F32.prec F32.emax m e l) as [mrs' e'].
  destruct (shr_fexp F32.prec F32.emax _ e' loc_Exact) as [mrs'' e''].
  destruct (shr_m mrs''); try reflexivity.
  destruct (e'' <=? F32.emax - F32.prec); reflexivity.
Qed.

Lemma binary_round_opp s m e :
  SFopp (binary_round F32.prec F32.emax s m e) =
  binary_round F32.prec F32.emax (negb s) m e.
Proof.
  unfold binary_round.
  destruct (shl_align m e _) as [mz ez]. apply binary_round_aux_opp.
Qed.

Lemma binary_normalize_opp m e :
  negof (binary_normalize F32.prec F32.emax m e false)
        (binary_normalize F32.prec F32.emax (- m) e false).
Proof.
  destruct m as [|p|p]; simpl.
  - exact I.
  - rewrite <- (binary_round_opp false). apply negof_opp.
  - replace (binary_round F32.prec F32.emax false p e)
      with (SFopp (binary_round F32.prec F32.emax true p e))
      by apply (binary_round_opp true).
    apply negof_opp.
Qed.

Lemma mul_opp_r (a b : float) : (a * - b)%f32 = (- (a * b))%f32.
Proof.
  destruct a as [sa|sa| |sa ma ea], b as [sb|sb| |sb mb eb]; simpl;
    try reflexivity; try (destruct sa, sb; reflexivity).
  unfold F32.mul, SFmul. rewrite binary_round_aux_opp.
  destruct sa, sb; reflexivity.
Qed.

Lemma cond_Zopp_negb s m : cond_Zopp (negb s) m = - cond_Zopp s m.
Proof. destruct s; simpl; lia. Qed.

Lemma add_negof (a a' b b' : float) :
  negof a a' -> negof b b' -> negof (a + b)%f32 (a' + b')%f32.
Proof.
  destruct a as [sa|sa| |sa ma ea], a' as [sa'|sa'| |sa' ma' ea'];
    simpl; try discriminate; intros Ha;
    destruct b as [sb|sb| |sb mb eb], b' as [sb'|sb'| |sb' mb' eb'];
    simpl; try discriminate; intros Hb;
    try (injection Ha as -> -> ->); try (injection Ha as ->);
    try (injection Hb as -> -> ->); try (injection Hb as ->);
    try reflexivity;
    try (destruct sa; try destruct sa'; try destruct sb; try destruct sb';
         reflexivity).
  unfold F32.add, SFadd.
  rewrite !cond_Zopp_negb, <- Z.opp_add_distr.
  apply binary_normalize_opp.
Qed.

Lemma dot_neg_negof (a n : Vector3f) :
  negof (Vector3.dot a n) (Vector3.dot a (- n)%vec).
Proof.
  unfold Vector3.dot. destruct n as [nx ny nz]. simpl.
  rewrite !mul_opp_r.
  apply add_negof; [apply add_negof|]; apply negof_opp.
Qed.

Lemma negof_positive (a b : float) :
  negof a b -> (a >? F32.of_int 0)%f32 = true ->
  (b <? F32.of_int 0)%f32 = true.
Proof.
  destruct a as [[|]|[|]| |[|] ma ea], b as [[|]|[|]| |[|] mb eb]; simpl;
    try discriminate; try reflexivity; intros H; try discriminate H;
    inversion H.
Qed.

Lemma ltb_leb (a b : float) : (a <? b)%f32 = true -> (a <=? b)%f32 = true.
Proof.
  unfold F32.ltb, F32.leb, SFltb, SFleb.
  destruct (SFcompare a b) as [[| |]|]; congruence.
Qed.

Lemma not_gtb_leb (a b : float) :
  F32.is_nan a = false -> F32.is_nan b = false ->
  (a >? b)%f32 = false -> (a <=? b)%f32 = true.
Proof.
  unfold F32.gtb, F32.leb, SFltb, SFleb. rewrite (SFcompare_antisym a b).
  intros Ha Hb.
  destruct (SFcompare a b) as [[| |]|] eqn:Hc; simpl; try congruence.
  destruct a, b; simpl in *; discriminate.
Qed.

(** * The recursion of [trace] *)

Lemma trace_log_color fuel uninit scene : forall ray max_depth,
  option_map fst (trace_log fuel uninit ray scene max_depth) =
  trace_fuel fuel uninit ray scene max_depth.
Proof.
  induction fuel as [|fuel IH]; intros ray max_depth; simpl; [reflexivity|].
  destruct (nearest_hit ray scene) as [h|]; [|reflexivity].
  destruct (0 <? max_depth); [|reflexivity].
  rewrite <- IH.
  destruct (trace_log fuel uninit _ scene (max_depth - 1)) as [[c calls]|];
    reflexivity.
Qed.

(** Without a positive budget one activation is all there is. *)
Lemma trace_fuel_exhausted fuel uninit ray scene max_depth :
  max_depth <= 0 ->
  trace_fuel (S fuel) uninit ray scene max_depth =
  Some match nearest_hit ray scene with
       | Some first_hit =>
           (uninit + emission_color (obj (orient ray first_hit)))%vec
       | None => background
       end.
Proof.
  intros Hd. simpl. destruct (nearest_hit ray scene) as [h|]; [|reflexivity].
  destruct (Z.ltb_spec 0 max_depth); [lia|reflexivity].
Qed.

Lemma trace_log_S fuel uninit ray scene max_depth :
  trace_log (S fuel) uninit ray scene max_depth =
  match nearest_hit ray scene with
  | Some first_hit =>
      let first_hit := orient ray first_hit in
      if 0 <? max_depth then
        match trace_log fuel uninit (reflect_ray ray first_hit) scene
                        (max_depth - 1) with
        | Some (reflection, calls) =>
            Some (((reflection * surface_color (obj first_hit) + bias)
                   + emission_color (obj first_hit))%vec,
                  (max_depth - 1) :: calls)
        | None => None
        end
      else Some ((uninit + emission_color (obj first_hit))%vec, [])
  | None => Some (background, [])
  end.
Proof. reflexivity. Qed.

Lemma trace_fuel_S fuel uninit ray scene max_depth :
  trace_fuel (S fuel) uninit ray scene max_depth =
  match nearest_hit ray scene with
  | Some first_hit =>
      let first_hit := orient ray first_hit in
      if 0 <? max_depth then
        match trace_fuel fuel uninit (reflect_ray ray first_hit) scene
                         (max_depth - 1) with
        | Some reflection =>
            Some ((reflection * surface_color (obj first_hit) + bias)
                  + emission_color (obj first_hit))%vec
        | None => None
        end
      else Some (uninit + emission_color (obj first_hit))%vec
  | None => Some background
  end.
Proof. reflexivity. Qed.

Lemma trace_log_bounded uninit scene : forall n ray max_depth,
  Z.to_nat max_depth = n ->
  exists c calls,
    trace_log (S n) uninit ray scene max_depth = Some (c, calls) /\
    (List.length calls <= n)%nat /\
    forall i b, nth_error calls i = Some b ->
      b = max_depth - 1 - Z.of_nat i /\ 0 <= b.
Proof.
  induction n as [|n IH]; intros ray max_depth Hn.
  - assert (Hd : (0 <? max_depth) = false) by (apply Z.ltb_ge; lia).
    simpl. rewrite Hd.
    destruct (nearest_hit ray scene) as [h|]; eexists; exists [];
      (split; [reflexivity|]); (split; [simpl; lia|]);
      intros [|i] b Hb; discriminate.
  - assert (Hd : (0 <? max_depth) = true) by (apply Z.ltb_lt; lia).
    rewrite trace_log_S, Hd.
    destruct (nearest_hit ray scene) as [h|]; cbv zeta.
    + destruct (IH (reflect_ray ray (orient ray h)) (max_depth - 1))
        as (c & calls & -> & Hlen & Hcalls); [lia|].
      eexists; eexists. split; [reflexivity|]. split; [simpl; lia|].
      intros [|i] b Hb; simpl in Hb.
      * injection Hb as <-. lia.
      * apply Hcalls in Hb. lia.
    + eexists; exists []. split; [reflexivity|]. split; [simpl; lia|].
      intros [|i] b Hb; discriminate.
Qed.

Lemma trace_total uninit ray scene max_depth :
  exists c, trace uninit ray scene max_depth = Some c.
Proof.
  destruct (trace_log_bounded uninit scene _ ray max_depth eq_refl)
    as (c & calls & Hlog & _).
  exists c. unfold trace. rewrite <- trace_log_color, Hlog. reflexivity.
Qed.

(** * The scenarios, computed *)

Example hit_of_concrete_scenario :
  intersect red_sphere ray_z =
  Some (mkHit (vec3 0 0 (-16)) (vec3 0 0 1) red_sphere) /\
  hit_distance ray_z (mkHit (vec3 0 0 (-16)) (vec3 0 0 1) red_sphere) =
  F32.of_int 16.
Proof. split; vm_compute; reflexivity. Qed.

Example scene_floats_valid :
  forallb F32.valid
    [F32.of_int (- 2 ^ 127); F32.of_int (2 ^ 127); F32.epsilon;
     S754_finite false 8388608 (-53); decimal 32 100; decimal 36 100;
     F32.of_double F32.double_0_3] = true.
Proof. vm_compute. reflexivity. Qed.

(** [Vector3f(0.3)]: each component is 10066330 * 2^-25. *)
Example bias_value :
  bias = Vector3.splat (S754_finite false 10066330 (-25)).
Proof. vm_compute. reflexivity. Qed.

(** Two spheres hit at the same distance: the one declared first is kept. *)
Example tie_keeps_first :
  option_map obj (nearest_hit ray_z (mkScene [red_sphere; black_sphere])) =
    Some red_sphere /\
  option_map obj (nearest_hit ray_z (mkScene [black_sphere; red_sphere])) =
    Some black_sphere.
Proof. split; vm_compute; reflexivity. Qed.

Example corridor_uses_whole_budget :
  option_map snd
    (trace_log 6 (vec3 0 0 0) ray_z (mkScene [red_sphere; back_sphere]) 5) =
  Some [4; 3; 2; 1; 0].
Proof. vm_compute. reflexivity. Qed.

(** * The properties of the specification *)

Lemma orient_obj ray h : obj (orient ray h) = obj h.
Proof. unfold orient. destruct (_ >? _)%f32; reflexivity. Qed.

Lemma nearest_loop_missed ray os : forall st,
  (forall o, In o os -> intersect o ray = None) ->
  nearest_loop ray os st = st.
Proof.
  unfold nearest_loop.
  induction os as [|o os IH]; intros st Hmiss; [reflexivity|].
  cbn [fold_left].
  replace (nearest_step ray st o) with st
    by (unfold nearest_step; rewrite (Hmiss o) by (left; reflexivity);
        reflexivity).
  apply IH. intros o' Ho'. apply Hmiss. right. assumption.
Qed.

Lemma nearest_hit_missed ray scene :
  (forall o, In o (objs scene) -> intersect o ray = None) ->
  nearest_hit ray scene = None.
Proof.
  intros Hmiss. unfold nearest_hit.
  rewrite nearest_loop_missed by assumption. reflexivity.
Qed.

(** C1 (as the code runs it): with a budget of 0 [trace] makes no recursive
    call, one activation is enough, and a ray that hits nothing gets
    [Color(0)]; but on a hit it returns the sum of the never initialised
    [surface_color] and the emission colour, not the emission colour plus a
    zero vector.  In the concrete scenario of the spec, which expects
    (0,0,0), whatever [surface_color] held comes back: (1,1,1) when it held
    (1,1,1). *)
Theorem trace_depth_zero_reads_uninitialized :
  (forall uninit ray scene,
     trace_fuel 1 uninit ray scene 0 =
     Some match nearest_hit ray scene with
          | Some first_hit =>
              (uninit + emission_color (obj (orient ray first_hit)))%vec
          | None => background
          end) /\
  (forall uninit,
     trace uninit ray_z (mkScene [red_sphere]) 0 =
     Some (uninit + vec3 0 0 0)%vec) /\
  trace (vec3 1 1 1) ray_z (mkScene [red_sphere]) 0 = Some (vec3 1 1 1) /\
  trace (vec3 1 1 1) ray_z (mkScene [red_sphere]) 0 <>
    Some (vec3 0 0 0 + emission_color red_sphere)%vec.
Proof.
  split; [|split; [|split]].
  - intros uninit ray scene. apply trace_fuel_exhausted. lia.
  - intros uninit. unfold trace. rewrite trace_fuel_exhausted by lia.
    replace (nearest_hit ray_z (mkScene [red_sphere]))
      with (Some (mkHit (vec3 0 0 (-16)) (vec3 0 0 1) red_sphere))
      by (vm_compute; reflexivity).
    rewrite orient_obj. reflexivity.
  - vm_compute. reflexivity.
  - vm_compute. discriminate.
Qed.

Lemma trace_positive_budget uninit ray scene h max_depth :
  0 < max_depth -> nearest_hit ray scene = Some h ->
  let first_hit := orient ray h in
  exists reflection,
    trace uninit (reflect_ray ray first_hit) scene (max_depth - 1) =
      Some reflection /\
    trace uninit ray scene max_depth =
      Some ((reflection * surface_color (obj first_hit) + bias)
            + emission_color (obj first_hit))%vec.
Proof.
  intros Hd Hh first_hit.
  destruct (trace_total uninit (reflect_ray ray first_hit) scene
              (max_depth - 1)) as [reflection Hr].
  exists reflection. split; [assumption|].
  unfold trace in *. rewrite trace_fuel_S, Hh. cbv zeta. fold first_hit.
  replace (0 <? max_depth) with true by (symmetry; apply Z.ltb_lt; lia).
  replace (Z.to_nat max_depth) with (S (Z.to_nat (max_depth - 1))) by lia.
  rewrite Hr. reflexivity.
Qed.

(** C2 fails as stated: [far_sphere], black and without emission, is hit
    by [far_ray], at a NaN position; the colour the claim gives for this
    hit, with a budget of 1, is (0.3,0.3,0.3), the reflection ray resolving
    nothing; but the hit is at a NaN distance, [trace] resolves none and
    returns [Color(0)]. *)
Lemma trace_unresolved_hit_background :
  intersect far_sphere far_ray =
    Some (mkHit (Vector3.splat F32.nan) (Vector3.splat F32.nan) far_sphere) /\
  trace (vec3 1 1 1)
        (reflect_ray far_ray
           (orient far_ray
              (mkHit (Vector3.splat F32.nan) (Vector3.splat F32.nan)
                     far_sphere)))
        (mkScene [far_sphere]) 0 = Some (vec3 0 0 0) /\
  ((vec3 0 0 0 * surface_color far_sphere
    + Vector3.splat (S754_finite false 10066330 (-25)))
   + emission_color far_sphere)%vec =
    Vector3.splat (S754_finite false 10066330 (-25)) /\
  trace (vec3 1 1 1) far_ray (mkScene [far_sphere]) 1 = Some (vec3 0 0 0) /\
  Vector3.splat (S754_finite false 10066330 (-25)) <> vec3 0 0 0.
Proof.
  split; [|split; [|split; [|split]]]; try (vm_compute; reflexivity).
  vm_compute. discriminate.
Qed.

(** C2 (amended): with a positive budget, when [trace] resolves a hit (the
    nearest of the hits whose distance is below +infinity), the colour is
    computed channel by channel as [r * s + c + e], where [r] is the colour
    traced with a budget one less along the ray that starts at the hit and
    whose direction is [d - n * 2 * (d . n)] ([d] the direction of the ray,
    [n] the normal of the hit, negated when [d . n > 0]), [s] and [e] are
    the surface and emission colours of the object hit and [c] is the
    [float] 10066330 * 2^-25 that 0.3 is converted to; when moreover the
    budget is 1, [s] and [e] are (0,0,0) and the reflection ray resolves no
    hit, the colour is ([c],[c],[c]). *)
Theorem trace_reflection_color uninit ray scene h max_depth :
  0 < max_depth -> nearest_hit ray scene = Some h ->
  let d := dir ray in
  let n0 := norm h in
  let zero := S754_zero false in
  let two := S754_finite false 8388608 (-22) in
  let c := S754_finite false 10066330 (-25) in
  let n :=
    if (x d * x n0 + y d * y n0 + z d * z n0 >? zero)%f32
    then mkVector3 (- x n0)%f32 (- y n0)%f32 (- z n0)%f32
    else n0 in
  let k := (x d * x n + y d * y n + z d * z n)%f32 in
  let reflect :=
    mkRay (hit_pos h)
          (mkVector3 (x d - x n * two * k)%f32
                     (y d - y n * two * k)%f32
                     (z d - z n * two * k)%f32) in
  let s := surface_color (obj h) in
  let e := emission_color (obj h) in
  (exists r,
     trace uninit reflect scene (max_depth - 1) = Some r /\
     trace uninit ray scene max_depth =
       Some (mkVector3 (x r * x s + c + x e)%f32
                       (y r * y s + c + y e)%f32
                       (z r * z s + c + z e)%f32)) /\
  (max_depth = 1 ->
   s = mkVector3 zero zero zero -> e = mkVector3 zero zero zero ->
   nearest_hit reflect scene = None ->
   trace uninit ray scene max_depth = Some (mkVector3 c c c)).
Proof.
  intros Hd Hh d n0 zero two c n k reflect s e.
  assert (Hn : norm (orient ray h) = n).
  { unfold orient, Vector3.dot, n. fold d n0.
    change (F32.of_int 0) with zero.
    destruct (_ >? zero)%f32; reflexivity. }
  assert (Hp : hit_pos (orient ray h) = hit_pos h)
    by (unfold orient; destruct (_ >? _)%f32; reflexivity).
  assert (Hreflect : reflect_ray ray (orient ray h) = reflect).
  { unfold reflect_ray. rewrite Hn, Hp. reflexivity. }
  destruct (trace_positive_budget uninit ray scene h max_depth Hd Hh)
    as (r & Hr & Hc).
  rewrite Hreflect in Hr. rewrite orient_obj in Hc.
  assert (Hcolor : trace uninit ray scene max_depth =
            Some (mkVector3 (x r * x s + c + x e)%f32
                            (y r * y s + c + y e)%f32
                            (z r * z s + c + z e)%f32))
    by exact Hc.
  split.
  - exists r. split; assumption.
  - intros -> Hs He Hmiss.
    assert (Hr0 : r = background).
    { unfold trace in Hr. rewrite trace_fuel_S, Hmiss in Hr. congruence. }
    rewrite Hcolor, Hr0, Hs, He. reflexivity.
Qed.

Lemma trace_reflection_color_witness :
  trace (vec3 1 1 1) ray_z (mkScene [red_sphere; lamp]) 2 =
    Some (mkVector3 (S754_finite false 15099494 (-22))
                    (S754_finite false 11374952 (-23))
                    (S754_finite false 12482250 (-23))) /\
  trace (vec3 1 1 1) ray_z (mkScene [black_sphere]) 1 =
    Some (Vector3.splat (S754_finite false 10066330 (-25))).
Proof.
  split.
  - destruct (proj1 (trace_reflection_color (vec3 1 1 1) ray_z
                       (mkScene [red_sphere; lamp])
                       (mkHit (vec3 0 0 (-16)) (vec3 0 0 1) red_sphere) 2
                       ltac:(lia) ltac:(vm_compute; reflexivity)))
      as (r & Hr & Hc).
    rewrite Hc.
    assert (Hr' : Some r = Some (Vector3.splat
                                   (S754_finite false 13841203 (-22))))
      by (rewrite <- Hr; vm_compute; reflexivity).
    injection Hr' as ->. vm_compute. reflexivity.
  - refine (proj2 (trace_reflection_color (vec3 1 1 1) ray_z
                     (mkScene [black_sphere])
                     (mkHit (vec3 0 0 (-16)) (vec3 0 0 1) black_sphere) 1
                     _ _) _ _ _ _);
      try lia; vm_compute; reflexivity.
Defined.

(** C3: a sphere is missed by every ray for which the dot product of
    [pos - ray.org] and [ray.dir] is at most 0. *)
Theorem intersect_behind_misses (sphere : Sphere) (ray : Ray) :
  (Vector3.dot (pos sphere - org ray)%vec (dir ray) <=? F32.of_int 0)%f32
    = true ->
  intersect sphere ray = None.
Proof. intros H. unfold intersect. rewrite H. reflexivity. Qed.

Lemma intersect_behind_misses_witness :
  intersect red_sphere ray_away = None.
Proof.
  apply intersect_behind_misses. vm_compute. reflexivity.
Defined.

(** C4: a ray with a positive [l_cos] for which [l_sin_sqr], computed as
    [|l|^2 - l_cos^2], compares equal to [radius^2] hits the sphere: the
    test that rejects is a strict [>]. *)
Theorem intersect_tangent_hits (sphere : Sphere) (ray : Ray) :
  let l := (pos sphere - org ray)%vec in
  let l_cos := Vector3.dot l (dir ray) in
  let l_sin_sqr := (Vector3.sqr_length l - l_cos * l_cos)%f32 in
  (l_cos >? F32.of_int 0)%f32 = true ->
  (l_sin_sqr =? radius sphere * radius sphere)%f32 = true ->
  exists hit, intersect sphere ray = Some hit /\ obj hit = sphere.
Proof.
  intros l l_cos l_sin_sqr Hcos Htan. unfold intersect.
  fold l. fold l_cos. fold l_sin_sqr.
  rewrite (gtb_not_leb _ _ Hcos), (eqb_not_gtb _ _ Htan).
  eexists. split; reflexivity.
Qed.

Lemma intersect_tangent_hits_witness :
  exists hit, intersect tangent_sphere ray_z = Some hit /\
              obj hit = tangent_sphere.
Proof.
  apply intersect_tangent_hits; vm_compute; reflexivity.
Defined.

(** C5 fails as stated: [far_sphere], the only object of the scene, is hit
    by [far_ray]; [pos - ray.org] overflows to -infinity along z, [l_cos]
    and [|l|^2] are +infinity, [l_sin_sqr] and then the position of the hit
    are NaN, and so is the distance of the hit, which is not below the
    initial [min_distance]: no hit is resolved. *)
Lemma nearest_hit_skips_nan_distance :
  intersect far_sphere far_ray =
    Some (mkHit (Vector3.splat F32.nan) (Vector3.splat F32.nan) far_sphere) /\
  hit_distance far_ray
    (mkHit (Vector3.splat F32.nan) (Vector3.splat F32.nan) far_sphere) =
    F32.nan /\
  nearest_hit far_ray (mkScene [far_sphere]) = None.
Proof. repeat split; vm_compute; reflexivity. Qed.

(** C5 (amended): the loop tests every object; a hit counts when its
    distance from the ray's origin, computed by [distance], is below
    +infinity.  The hit resolved is the hit of some object of the scene, it
    counts, no hit of the scene is strictly nearer, and no object declared
    earlier is hit at an equal distance; no hit is resolved exactly when no
    hit of the scene counts. *)
Theorem nearest_hit_first_minimum (ray : Ray) (scene : Scene) :
  match nearest_hit ray scene with
  | Some best =>
      (hit_distance ray best <? F32.infinity)%f32 = true /\
      exists i o,
        nth_error (objs scene) i = Some o /\ intersect o ray = Some best /\
        (forall j o' h', nth_error (objs scene) j = Some o' ->
           intersect o' ray = Some h' ->
           (hit_distance ray h' <? hit_distance ray best)%f32 = false) /\
        (forall j o' h', (j < i)%nat -> nth_error (objs scene) j = Some o' ->
           intersect o' ray = Some h' ->
           (hit_distance ray h' =? hit_distance ray best)%f32 = false)
  | None =>
      forall o h, In o (objs scene) -> intersect o ray = Some h ->
        (hit_distance ray h <? F32.infinity)%f32 = false
  end.
Proof.
  pose proof (nearest_loop_inv ray (objs scene) [] (None, F32.infinity)) as H.
  unfold nearest_hit. unfold nearest_inv in H. simpl app in H.
  destruct (fst (nearest_loop ray (objs scene) (None, F32.infinity)))
    as [best|].
  - destruct H as (_ & Hinf & Hbest).
    + split; [reflexivity|]. intros o h [].
    + split; assumption.
  - destruct H as (_ & Hnone).
    + split; [reflexivity|]. intros o h [].
    + assumption.
Qed.

(** C6 fails as stated: [tiny_sphere] is hit by [ray_z] at its centre, the
    normal is 0/0, and the dot product, a NaN, is not at most 0 after the
    correction. *)
Lemma orient_nan_normal :
  exists h,
    nearest_hit ray_z (mkScene [tiny_sphere]) = Some h /\
    (Vector3.dot (dir ray_z) (norm (orient ray_z h)) <=? F32.of_int 0)%f32
      = false.
Proof.
  exists (mkHit (vec3 0 0 (-20)) (Vector3.splat F32.nan) tiny_sphere).
  split; vm_compute; reflexivity.
Qed.

(** C6 (amended): the correction negates the normal exactly when its dot
    product with the ray's direction is positive; afterwards the dot
    product is never positive, and it is at most 0 unless it is a NaN. *)
Theorem orient_faces_ray (ray : Ray) (h : Hit) :
  let d := Vector3.dot (dir ray) (norm h) in
  let d' := Vector3.dot (dir ray) (norm (orient ray h)) in
  norm (orient ray h) = (if (d >? F32.of_int 0)%f32
                         then (- norm h)%vec else norm h) /\
  (d' >? F32.of_int 0)%f32 = false /\
  (F32.is_nan d' = false -> (d' <=? F32.of_int 0)%f32 = true).
Proof.
  intros d d'. subst d'. unfold orient. fold d.
  destruct (d >? F32.of_int 0)%f32 eqn:Hpos; simpl norm.
  - pose proof (negof_positive _ _ (dot_neg_negof (dir ray) (norm h)) Hpos)
      as Hneg.
    split; [reflexivity|]. split.
    + apply ltb_antisym, Hneg.
    + intros _. apply ltb_leb, Hneg.
  - split; [reflexivity|]. split; [assumption|].
    intros Hnan. apply not_gtb_leb; [assumption|reflexivity|assumption].
Qed.

(** C7: when no object is hit, in particular in the empty scene, [trace]
    returns [Color(0)] whatever the budget. *)
Theorem trace_background uninit ray scene max_depth :
  (forall o, In o (objs scene) -> intersect o ray = None) ->
  trace uninit ray scene max_depth = Some background.
Proof.
  intros Hmiss. unfold trace.
  rewrite trace_fuel_S, (nearest_hit_missed _ _ Hmiss). reflexivity.
Qed.

Lemma trace_background_witness :
  trace (vec3 1 1 1) ray_z (mkScene []) 5 = Some (vec3 0 0 0) /\
  trace (vec3 1 1 1) ray_away (mkScene [red_sphere; black_sphere]) (-1) =
    Some (vec3 0 0 0).
Proof.
  split.
  - apply (trace_background (vec3 1 1 1) ray_z (mkScene []) 5).
    intros o [].
  - apply (trace_background (vec3 1 1 1) ray_away
             (mkScene [red_sphere; black_sphere]) (-1)).
    intros o [<-|[<-|[]]]; vm_compute; reflexivity.
Defined.

(** C8: with a budget [max_depth >= 0], [trace] returns, and within
    [max_depth + 1] nested activations; the recursive calls, in the order
    they are made, are each made by an activation whose budget is positive
    and are handed that budget less 1; there are at most [max_depth] of
    them, and none when the budget is 0. *)
Theorem trace_terminates uninit ray scene max_depth :
  0 <= max_depth ->
  exists c calls,
    trace uninit ray scene max_depth = Some c /\
    trace_log (S (Z.to_nat max_depth)) uninit ray scene max_depth =
      Some (c, calls) /\
    Z.of_nat (List.length calls) <= max_depth /\
    (max_depth = 0 -> calls = []) /\
    forall i b, nth_error calls i = Some b ->
      0 < max_depth - Z.of_nat i /\ b = max_depth - Z.of_nat i - 1.
Proof.
  intros Hd.
  destruct (trace_log_bounded uninit scene _ ray max_depth eq_refl)
    as (c & calls & Hlog & Hlen & Hcalls).
  exists c, calls. split; [|split; [|split; [|split]]].
  - unfold trace. rewrite <- trace_log_color, Hlog. reflexivity.
  - assumption.
  - lia.
  - intros ->. destruct calls; [reflexivity|simpl in Hlen; lia].
  - intros i b Hb. apply Hcalls in Hb. lia.
Qed.

Lemma trace_terminates_witness :
  exists c calls,
    trace (vec3 0 0 0) ray_z (mkScene [red_sphere; back_sphere]) 5 = Some c /\
    trace_log 6 (vec3 0 0 0) ray_z (mkScene [red_sphere; back_sphere]) 5 =
      Some (c, calls) /\
    Z.of_nat (List.length calls) <= 5 /\
    (5 = 0 -> calls = []) /\
    forall i b, nth_error calls i = Some b ->
      0 < 5 - Z.of_nat i /\ b = 5 - Z.of_nat i - 1.
Proof.
  apply (trace_terminates (vec3 0 0 0) ray_z
           (mkScene [red_sphere; back_sphere]) 5).
  lia.
Defined.

(** C9: [normalize] returns a vector whose length is below
    [numeric_limits<float>::epsilon()] as it is, whereas [normalized]
    divides it by its length like any other. *)
Theorem normalize_below_epsilon (vector : Vector3f) :
  (Vector3.length vector <? F32.epsilon)%f32 = true ->
  normalize vector = vector /\
  Vector3.normalized vector =
    Vector3.div_scalar vector (Vector3.length vector).
Proof.
  intros Hlen. unfold normalize. rewrite Hlen. split; reflexivity.
Qed.

Lemma normalize_below_epsilon_witness :
  normalize small_vector = small_vector /\
  Vector3.normalized small_vector = vec3 1 0 0 /\
  normalize (vec3 0 0 0) = vec3 0 0 0 /\
  Vector3.normalized (vec3 0 0 0) = Vector3.splat F32.nan.
Proof.
  destruct (normalize_below_epsilon small_vector) as [Hfree Hmember];
    [vm_compute; reflexivity|].
  destruct (normalize_below_epsilon (vec3 0 0 0)) as [Hfree0 Hmember0];
    [vm_compute; reflexivity|].
  split; [exact Hfree|]. split; [rewrite Hmember; vm_compute; reflexivity|].
  split; [exact Hfree0|]. rewrite Hmember0. vm_compute. reflexivity.
Defined.

(** C10 (as the code runs it): a budget below 0 takes the path of a budget
    of 0, no budget is refused and no recursive call is made; the two calls
    return the same colour when the ray resolves no hit, but on a hit each
    returns the contents of its own never initialised [surface_color] plus
    the emission colour: (1,1,1) with a budget of -3 where [surface_color]
    held (1,1,1), (0,0,0) with a budget of 0 where it held (0,0,0). *)
Theorem trace_nonpositive_budget_reads_uninitialized :
  (forall uninit uninit' ray scene max_depth,
     max_depth <= 0 -> nearest_hit ray scene = None ->
     trace uninit ray scene max_depth = trace uninit' ray scene 0) /\
  (forall uninit uninit' ray scene max_depth h,
     max_depth <= 0 -> nearest_hit ray scene = Some h ->
     trace uninit ray scene max_depth =
       Some (uninit + emission_color (obj h))%vec /\
     trace uninit' ray scene 0 =
       Some (uninit' + emission_color (obj h))%vec) /\
  trace (vec3 1 1 1) ray_z (mkScene [red_sphere]) (-3) = Some (vec3 1 1 1) /\
  trace (vec3 0 0 0) ray_z (mkScene [red_sphere]) 0 = Some (vec3 0 0 0).
Proof.
  split; [|split; [|split]].
  - intros uninit uninit' ray scene max_depth Hd Hmiss. unfold trace.
    rewrite !trace_fuel_exhausted, Hmiss by lia. reflexivity.
  - intros uninit uninit' ray scene max_depth h Hd Hh. unfold trace.
    rewrite !trace_fuel_exhausted, Hh, orient_obj by lia.
    split; reflexivity.
  - vm_compute. reflexivity.
  - vm_compute. reflexivity.
Qed.

(** * Further properties of [vector3.hpp] and [main.cc] *)

Lemma mul_comm (a b : float) : (a * b)%f32 = (b * a)%f32.
Proof.
  destruct a as [sa|sa| |sa ma ea], b as [sb|sb| |sb mb eb]; simpl;
    try reflexivity; try (destruct sa, sb; reflexivity).
  unfold F32.mul, SFmul.
  rewrite (xorb_comm sa sb), (Pos.mul_comm ma mb), (Z.add_comm ea eb).
  reflexivity.
Qed.

Lemma add_comm (a b : float) : (a + b)%f32 = (b + a)%f32.
Proof.
  destruct a as [sa|sa| |sa ma ea], b as [sb|sb| |sb mb eb]; simpl;
    try reflexivity; try (destruct sa, sb; reflexivity).
  unfold F32.add, SFadd. rewrite (Z.min_comm ea eb), Z.add_comm.
  reflexivity.
Qed.

Lemma sub_add_opp (a b : float) : (a - b)%f32 = (a + - b)%f32.
Proof.
  destruct a as [sa|sa| |sa ma ea], b as [sb|sb| |sb mb eb]; simpl;
    try reflexivity; destruct sa, sb; reflexivity.
Qed.

Lemma opp_involutive (a : float) : (- - a)%f32 = a.
Proof.
  destruct a as [s|s| |s m e]; simpl; rewrite ?negb_involutive;
    reflexivity.
Qed.

Lemma negof_sym (a b : float) : negof a b -> negof b a.
Proof.
  destruct a, b; simpl; auto; try discriminate;
    intros H; injection H as ->; intros; subst;
    rewrite ?negb_involutive; reflexivity.
Qed.

Lemma sub_negof (a b : float) : negof (a - b)%f32 (b - a)%f32.
Proof.
  rewrite !sub_add_opp, (add_comm b).
  apply add_negof; [apply negof_opp|].
  apply negof_sym. apply negof_opp.
Qed.

Lemma mul_negof_square (a b : float) : negof a b -> (a * a)%f32 = (b * b)%f32.
Proof.
  destruct a as [[|]|[|]| |[|] ma ea], b as [[|]|[|]| |[|] mb eb]; simpl;
    try discriminate; try reflexivity; intros H; inversion H; reflexivity.
Qed.

(** X1: the dot product does not depend on the order of its operands, and
    the free function [dot] is the member [dot]. *)
Theorem dot_symmetric (a b : Vector3f) :
  Vector3.dot a b = Vector3.dot b a /\ dot a b = Vector3.dot b a.
Proof.
  unfold dot, Vector3.dot.
  rewrite (mul_comm (x a)), (mul_comm (y a)), (mul_comm (z a)).
  split; reflexivity.
Qed.

(** X2: [sqr_distance] and [distance] are symmetric, signed zeros, infinities
    and NaN included. *)
Theorem distance_symmetric (a b : Vector3f) :
  sqr_distance a b = sqr_distance b a /\ distance a b = distance b a.
Proof.
  assert (H : sqr_distance a b = sqr_distance b a).
  { unfold sqr_distance, sqr_length, dot, Vector3.sub. simpl.
    rewrite (mul_negof_square _ _ (sub_negof (x a) (x b))).
    rewrite (mul_negof_square _ _ (sub_negof (y a) (y b))).
    rewrite (mul_negof_square _ _ (sub_negof (z a) (z b))).
    reflexivity. }
  split; [assumption|]. unfold distance. rewrite H. reflexivity.
Qed.

(** X3: subtracting a vector is adding its negation, and negating twice
    gives the vector back. *)
Theorem sub_is_add_neg (a b : Vector3f) :
  (a - b)%vec = (a + - b)%vec /\ (- - a)%vec = a.
Proof.
  unfold Vector3.sub, Vector3.add, Vector3.neg. simpl.
  rewrite !sub_add_opp, !opp_involutive. destruct a. split; reflexivity.
Qed.

Lemma eqb_refl_iff (a : float) : (a =? a)%f32 = negb (F32.is_nan a).
Proof.
  destruct a as [s|s| |s m e]; try (destruct s; reflexivity);
    try reflexivity.
  unfold F32.eqb, SFeqb. rewrite SFcompare_finite.
  unfold fcmp. rewrite Z.compare_refl, Pos.compare_refl.
  destruct s; reflexivity.
Qed.

Lemma eqb_sym (a b : float) : (a =? b)%f32 = (b =? a)%f32.
Proof.
  unfold F32.eqb, SFeqb. rewrite (SFcompare_antisym a b).
  destruct (SFcompare a b) as [[| |]|]; reflexivity.
Qed.

(** X4: [operator!=] is the negation of [operator==]; [operator==] is
    symmetric, and a vector compares equal to itself exactly when none of
    its components is a NaN. *)
Theorem Vector3_eq_ne (a b : Vector3f) :
  Vector3_ne a b = negb (Vector3_eq a b) /\
  Vector3_eq a b = Vector3_eq b a /\
  Vector3_eq a a = no_nan a.
Proof.
  unfold Vector3_ne, Vector3_eq, no_nan, neb. split; [|split].
  - rewrite !negb_andb. reflexivity.
  - rewrite (eqb_sym (x a)), (eqb_sym (y a)), (eqb_sym (z a)). reflexivity.
  - rewrite !eqb_refl_iff. reflexivity.
Qed.

(** ** Rounding never makes a NaN, and keeps the sign *)

Lemma shr_1_nonneg mrs : 0 <= shr_m mrs -> 0 <= shr_m (shr_1 mrs).
Proof.
  destruct mrs as [m r s]. simpl.
  destruct m as [|[p|p|]|[p|p|]]; simpl; lia.
Qed.

Lemma iter_shr_1_nonneg p : forall mrs,
  0 <= shr_m mrs -> 0 <= shr_m (iter_pos shr_1 p mrs).
Proof.
  induction p as [p IH|p IH|]; intros mrs H; simpl.
  - apply IH, IH, shr_1_nonneg, H.
  - apply IH, IH, H.
  - apply shr_1_nonneg, H.
Qed.

Lemma shr_fexp_nonneg m e l :
  0 <= m -> 0 <= shr_m (fst (shr_fexp F32.prec F32.emax m e l)).
Proof.
  intros H. unfold shr_fexp, shr.
  assert (H0 : 0 <= shr_m (shr_record_of_loc m l))
    by (destruct l as [|[| |]]; exact H).
  destruct (fexp F32.prec F32.emax (Zdigits2 m + e) - e); simpl;
    try assumption.
  apply iter_shr_1_nonneg, H0.
Qed.

Lemma round_nearest_even_nonneg m l : 0 <= m -> 0 <= round_nearest_even m l.
Proof.
  intros H. unfold round_nearest_even.
  destruct l as [|[| |]]; try destruct (Z.even m); lia.
Qed.

Lemma binary_round_aux_not_nan s m e l :
  0 <= m -> F32.is_nan (binary_round_aux F32.prec F32.emax s m e l) = false.
Proof.
  intros H. unfold binary_round_aux.
  pose proof (shr_fexp_nonneg m e l H) as H1.
  destruct (shr_fexp F32.prec F32.emax m e l) as [mrs' e']. simpl in H1.
  pose proof (shr_fexp_nonneg _ e' loc_Exact
                (round_nearest_even_nonneg _ (loc_of_shr_record mrs') H1))
    as H2.
  destruct (shr_fexp F32.prec F32.emax _ e' loc_Exact) as [mrs'' e''].
  simpl in H2. destruct (shr_m mrs''); try reflexivity; [|lia].
  destruct (e'' <=? F32.emax - F32.prec); reflexivity.
Qed.

Lemma binary_round_aux_sign_clear m e l :
  sign_clear (binary_round_aux F32.prec F32.emax false m e l).
Proof.
  unfold binary_round_aux.
  destruct (shr_fexp F32.prec F32.emax m e l) as [mrs' e'].
  destruct (shr_fexp F32.prec F32.emax _ e' loc_Exact) as [mrs'' e''].
  destruct (shr_m mrs''); try reflexivity; try exact I.
  destruct (e'' <=? F32.emax - F32.prec); reflexivity.
Qed.

Lemma binary_round_not_nan s m e :
  F32.is_nan (binary_round F32.prec F32.emax s m e) = false.
Proof.
  unfold binary_round. destruct (shl_align m e _) as [mz ez].
  apply binary_round_aux_not_nan. lia.
Qed.

Lemma binary_round_sign_clear m e :
  sign_clear (binary_round F32.prec F32.emax false m e).
Proof.
  unfold binary_round. destruct (shl_align m e _) as [mz ez].
  apply binary_round_aux_sign_clear.
Qed.

Lemma mul_self_sign_clear (a : float) : sign_clear (a * a)%f32.
Proof.
  destruct a as [[|]|[|]| |[|] m e]; simpl; try reflexivity; try exact I;
    apply binary_round_aux_sign_clear.
Qed.

Lemma mul_self_not_nan (a : float) :
  is_finite a = true -> F32.is_nan (a * a)%f32 = false.
Proof.
  destruct a as [s|s| |s m e]; simpl; try discriminate; intros _;
    [reflexivity|].
  apply binary_round_aux_not_nan. lia.
Qed.

Lemma add_sign_clear (a b : float) :
  sign_clear a -> sign_clear b -> sign_clear (a + b)%f32.
Proof.
  destruct a as [sa|sa| |sa ma ea], b as [sb|sb| |sb mb eb]; simpl;
    try (intros; exact I); intros -> ->; try reflexivity.
  apply binary_round_sign_clear.
Qed.

Lemma add_not_nan (a b : float) :
  sign_clear a -> sign_clear b ->
  F32.is_nan a = false -> F32.is_nan b = false ->
  F32.is_nan (a + b)%f32 = false.
Proof.
  destruct a as [sa|sa| |sa ma ea], b as [sb|sb| |sb mb eb]; simpl;
    try discriminate; intros -> -> _ _; try reflexivity.
  apply binary_round_not_nan.
Qed.

Lemma sqrt_sign_clear (a : float) : sign_clear a -> sign_clear (F32.sqrt a).
Proof.
  destruct a as [s|s| |s m e]; simpl; try (intros; exact I); intros ->;
    try reflexivity.
  unfold F32.sqrt, SFsqrt.
  destruct (SFsqrt_core_binary F32.prec F32.emax (Z.pos m) e) as [[mz ez] lz].
  apply binary_round_aux_sign_clear.
Qed.

Lemma sqrt_not_nan (a : float) :
  sign_clear a -> F32.is_nan (F32.sqrt a) = F32.is_nan a.
Proof.
  destruct a as [s|s| |s m e]; simpl; try reflexivity; intros ->;
    try reflexivity.
  unfold F32.sqrt, SFsqrt, SFsqrt_core_binary.
  set (m' := match _ - _ with Z0 => _ | Z.pos _ => _ | Z.neg _ => _ end).
  assert (Hm' : 0 <= m').
  { subst m'. destruct (e - _); try lia. apply Z.shiftl_nonneg. lia. }
  pose proof (Z.sqrtrem_spec m' Hm') as Hs.
  destruct (Z.sqrtrem m') as [q r].
  apply binary_round_aux_not_nan. lia.
Qed.

Lemma sign_clear_not_negative (a : float) :
  sign_clear a -> (a <? F32.of_int 0)%f32 = false.
Proof.
  destruct a as [s|s| |s m e]; simpl; try reflexivity; intros ->; reflexivity.
Qed.

Lemma sqr_length_sign_clear (v : Vector3f) : sign_clear (sqr_length v).
Proof.
  unfold sqr_length, dot.
  repeat apply add_sign_clear; apply mul_self_sign_clear.
Qed.

Lemma sqr_length_not_nan (v : Vector3f) :
  finite_vector v = true -> F32.is_nan (sqr_length v) = false.
Proof.
  unfold finite_vector. intros H.
  apply andb_prop in H as [H Hz]. apply andb_prop in H as [Hx Hy].
  unfold sqr_length, dot.
  repeat apply add_not_nan;
    repeat apply add_sign_clear;
    auto using mul_self_sign_clear, mul_self_not_nan.
Qed.

(** X5: a squared length, a length and a distance are never below 0, and
    the square root of [length] is never taken of a negative number: the
    length is a NaN only when the squared length is. *)
Theorem length_never_negative (a b v : Vector3f) :
  (sqr_length v <? F32.of_int 0)%f32 = false /\
  (length v <? F32.of_int 0)%f32 = false /\
  (Vector3.length v <? F32.of_int 0)%f32 = false /\
  (distance a b <? F32.of_int 0)%f32 = false /\
  F32.is_nan (length v) = F32.is_nan (sqr_length v) /\
  F32.is_nan (distance a b) = F32.is_nan (sqr_distance a b).
Proof.
  pose proof (sqr_length_sign_clear v) as Hv.
  pose proof (sqr_length_sign_clear (a - b)%vec) as Hab.
  repeat split.
  - apply sign_clear_not_negative, Hv.
  - apply sign_clear_not_negative, sqrt_sign_clear, Hv.
  - apply sign_clear_not_negative, sqrt_sign_clear, Hv.
  - apply sign_clear_not_negative, sqrt_sign_clear, Hab.
  - apply sqrt_not_nan, Hv.
  - apply sqrt_not_nan, Hab.
Qed.

Lemma div_not_nan (a len : float) :
  is_finite a = true -> sign_clear len -> F32.is_nan len = false ->
  (len <? F32.epsilon)%f32 = false ->
  F32.is_nan (a / len)%f32 = false.
Proof.
  destruct a as [sa|sa| |sa ma ea]; try discriminate; intros _;
    destruct len as [s|s| |s m e]; simpl; try discriminate;
    intros -> _ Heps; try reflexivity; try discriminate Heps.
  unfold F32.div, SFdiv, SFdiv_core_binary.
  set (m' := match _ - _ - _ with Z0 => _ | Z.pos _ => _ | Z.neg _ => _ end).
  assert (Hm' : 0 <= m').
  { subst m'. destruct (ea - e - _); try lia. apply Z.shiftl_nonneg. lia. }
  pose proof (Z.div_pos m' (Z.pos m) Hm' eq_refl) as Hq.
  unfold Z.div in Hq. destruct (Z.div_eucl m' (Z.pos m)) as [q r].
  apply binary_round_aux_not_nan. exact Hq.
Qed.

(** X6: [normalize] of a vector with finite components has no NaN
    component, whereas [normalized] turns the zero vector into NaN. *)
Theorem normalize_finite_no_nan (v : Vector3f) :
  finite_vector v = true -> no_nan (normalize v) = true.
Proof.
  intros Hfin.
  assert (Hv : no_nan v = true).
  { revert Hfin. unfold finite_vector, no_nan.
    destruct (x v), (y v), (z v); simpl; congruence. }
  unfold normalize.
  destruct (Vector3.length v <? F32.epsilon)%f32 eqn:Heps; [assumption|].
  assert (Hs : sign_clear (Vector3.length v))
    by apply sqrt_sign_clear, sqr_length_sign_clear.
  assert (Hn : F32.is_nan (Vector3.length v) = false).
  { unfold Vector3.length. change (Vector3.sqr_length v) with (sqr_length v).
    rewrite sqrt_not_nan by apply sqr_length_sign_clear.
    apply sqr_length_not_nan, Hfin. }
  unfold finite_vector in Hfin.
  apply andb_prop in Hfin as [Hfin Hz]. apply andb_prop in Hfin as [Hx Hy].
  unfold no_nan, Vector3.div_scalar. simpl.
  rewrite !div_not_nan by assumption. reflexivity.
Qed.

Lemma normalize_finite_no_nan_witness :
  no_nan (normalize (vec3 0 0 0)) = true /\
  no_nan (Vector3.normalized (vec3 0 0 0)) = false.
Proof.
  split; [|vm_compute; reflexivity].
  apply normalize_finite_no_nan. vm_compute. reflexivity.
Defined.

(** ** NaN in a ray *)

Lemma mul_nan_r (a : float) : (a * F32.nan)%f32 = F32.nan.
Proof. destruct a; reflexivity. Qed.

Lemma add_nan_r (a : float) : (a + F32.nan)%f32 = F32.nan.
Proof. destruct a; reflexivity. Qed.

Lemma sub_nan_r (a : float) : (a - F32.nan)%f32 = F32.nan.
Proof. destruct a; reflexivity. Qed.

Lemma is_nan_eq (a : float) : F32.is_nan a = true -> a = F32.nan.
Proof. destruct a; try discriminate. reflexivity. Qed.

Lemma dot_nan (l d : Vector3f) :
  no_nan l && no_nan d = false -> Vector3.dot l d = F32.nan.
Proof.
  unfold no_nan, Vector3.dot.
  destruct l as [lx ly lz], d as [dx dy dz]. simpl.
  destruct lx, ly, lz, dx, dy, dz; try discriminate; intros _;
    rewrite ?mul_nan_r, ?add_nan_r; reflexivity.
Qed.

Lemma sub_no_nan (a b : Vector3f) :
  no_nan b = false -> no_nan (a - b)%vec = false.
Proof.
  unfold no_nan, Vector3.sub. destruct b as [bx b_y bz]. simpl.
  destruct bx, b_y, bz; try discriminate; intros _;
    rewrite ?sub_nan_r; simpl; rewrite ?andb_false_r; reflexivity.
Qed.

Lemma intersect_nan (o : Sphere) (ray : Ray) :
  Vector3.dot (pos o - org ray)%vec (dir ray) = F32.nan ->
  intersect o ray =
  Some (mkHit (Vector3.splat F32.nan) (Vector3.splat F32.nan) o).
Proof.
  intros H. unfold intersect. rewrite H. simpl.
  replace (_ >? _)%f32 with false
    by (rewrite sub_nan_r; destruct (radius o * radius o)%f32; reflexivity).
  unfold Vector3.add, Vector3.scale. simpl.
  rewrite !mul_nan_r, !add_nan_r. reflexivity.
Qed.

Lemma hit_distance_nan (ray : Ray) (n : Vector3f) (o : Object) :
  hit_distance ray (mkHit (Vector3.splat F32.nan) n o) = F32.nan.
Proof.
  unfold hit_distance, distance, sqr_distance, sqr_length, dot. simpl.
  rewrite !sub_nan_r. reflexivity.
Qed.

Lemma ltb_nan_l (a : float) : (F32.nan <? a)%f32 = false.
Proof. reflexivity. Qed.

Lemma nearest_loop_nan ray os : forall st,
  (forall o, In o os ->
     Vector3.dot (pos o - org ray)%vec (dir ray) = F32.nan) ->
  nearest_loop ray os st = st.
Proof.
  unfold nearest_loop.
  induction os as [|o os IH]; intros st Hnan; [reflexivity|].
  cbn [fold_left].
  replace (nearest_step ray st o) with st.
  - apply IH. intros o' Ho'. apply Hnan. right. assumption.
  - unfold nearest_step.
    rewrite (intersect_nan o ray (Hnan o (or_introl eq_refl))).
    fold (hit_distance ray
            (mkHit (Vector3.splat F32.nan) (Vector3.splat F32.nan) o)).
    rewrite hit_distance_nan, ltb_nan_l. reflexivity.
Qed.

(** X7: a ray with a NaN among the components of its origin or of its
    direction resolves no hit, whatever the scene: every sphere reports a
    hit, at a NaN distance, and [trace] returns [Color(0)] for every
    budget. *)
Theorem trace_nan_ray uninit ray scene max_depth :
  no_nan (org ray) && no_nan (dir ray) = false ->
  (forall o, exists n, intersect o ray =
                       Some (mkHit (Vector3.splat F32.nan) n o)) /\
  nearest_hit ray scene = None /\
  trace uninit ray scene max_depth = Some background.
Proof.
  intros Hnan.
  assert (Hdot : forall o,
            Vector3.dot (pos o - org ray)%vec (dir ray) = F32.nan).
  { intros o. apply dot_nan.
    destruct (no_nan (org ray)) eqn:Ho; simpl in Hnan.
    - rewrite Hnan. apply andb_false_r.
    - rewrite (sub_no_nan _ _ Ho). reflexivity. }
  assert (Hmiss : nearest_hit ray scene = None).
  { unfold nearest_hit. rewrite nearest_loop_nan by auto. reflexivity. }
  split; [|split].
  - intros o. eexists. apply intersect_nan, Hdot.
  - assumption.
  - unfold trace. rewrite trace_fuel_S, Hmiss. reflexivity.
Qed.

Lemma trace_nan_ray_witness :
  trace (vec3 1 1 1) (mkRay (vec3 0 0 0) (Vector3.splat F32.nan))
        (mkScene [red_sphere; back_sphere]) 5 = Some background.
Proof.
  apply (trace_nan_ray (vec3 1 1 1)
           (mkRay (vec3 0 0 0) (Vector3.splat F32.nan))
           (mkScene [red_sphere; back_sphere]) 5).
  reflexivity.
Defined.

Lemma intersect_obj o ray h : intersect o ray = Some h -> obj h = o.
Proof.
  unfold intersect. destruct (_ <=? _)%f32; [discriminate|].
  destruct (_ >? _)%f32; [discriminate|].
  intros H. injection H as <-. reflexivity.
Qed.

(** X8: the hit [trace] resolves is the hit of an object of the scene, and
    [obj] designates that object, before and after the normal is
    oriented. *)
Theorem nearest_hit_in_scene ray scene h :
  nearest_hit ray scene = Some h ->
  In (obj h) (objs scene) /\
  intersect (obj h) ray = Some h /\
  obj (orient ray h) = obj h.
Proof.
  intros Hh.
  pose proof (nearest_loop_inv ray (objs scene) [] (None, F32.infinity)) as H.
  unfold nearest_hit in Hh. unfold nearest_inv in H. simpl app in H.
  destruct (fst (nearest_loop ray (objs scene) (None, F32.infinity)))
    as [best|]; [|discriminate].
  injection Hh as ->.
  destruct H as (_ & _ & i & o & Hi & Ho & _).
  { split; [reflexivity|]. intros o h' []. }
  rewrite (intersect_obj _ _ _ Ho). split; [|split].
  - eapply nth_error_In, Hi.
  - assumption.
  - rewrite orient_obj. apply (intersect_obj _ _ _ Ho).
Qed.

Lemma nearest_hit_in_scene_witness :
  In red_sphere [red_sphere; back_sphere] /\
  intersect red_sphere ray_z =
    Some (mkHit (vec3 0 0 (-16)) (vec3 0 0 1) red_sphere).
Proof.
  pose proof (nearest_hit_in_scene ray_z (mkScene [red_sphere; back_sphere])
                (mkHit (vec3 0 0 (-16)) (vec3 0 0 1) red_sphere)) as H.
  destruct H as (H1 & H2 & _); [vm_compute; reflexivity|].
  split; [exact H1|exact H2].
Defined.

(** ** The uninitialised [surface_color], missed objects, the orientation *)

Lemma trace_fuel_uninit fuel scene uninit uninit' : forall ray max_depth,
  exhausts fuel ray scene max_depth = false ->
  trace_fuel fuel uninit ray scene max_depth =
  trace_fuel fuel uninit' ray scene max_depth.
Proof.
  induction fuel as [|fuel IH]; intros ray max_depth H; [reflexivity|].
  rewrite !trace_fuel_S. simpl in H.
  destruct (nearest_hit ray scene) as [h|]; [|reflexivity].
  cbv zeta. destruct (0 <? max_depth); [|discriminate].
  rewrite (IH _ _ H). reflexivity.
Qed.

(** X9: unless the chain of reflections is still on an object when the
    budget is used up, the colour [trace] returns does not depend on what
    the never initialised [surface_color] holds; with a budget of 0 it is
    the first ray that decides. *)
Theorem trace_ignores_uninit uninit uninit' ray scene max_depth :
  exhausts (S (Z.to_nat max_depth)) ray scene max_depth = false ->
  trace uninit ray scene max_depth = trace uninit' ray scene max_depth.
Proof. apply trace_fuel_uninit. Qed.

Lemma trace_ignores_uninit_witness :
  trace (vec3 1 1 1) ray_z (mkScene [black_sphere]) 1 =
  trace (vec3 0 0 0) ray_z (mkScene [black_sphere]) 1 /\
  exhausts 6 ray_z (mkScene [red_sphere; back_sphere]) 5 = true.
Proof.
  split; [|vm_compute; reflexivity].
  apply trace_ignores_uninit. vm_compute. reflexivity.
Defined.

Lemma nearest_step_missed ray st o :
  intersect o ray = None -> nearest_step ray st o = st.
Proof. intros H. unfold nearest_step. rewrite H. reflexivity. Qed.

(** X10: an object the ray misses can be taken out of the scene, wherever
    it stands, without changing the hit that is resolved. *)
Theorem nearest_hit_drops_missed ray os1 o os2 :
  intersect o ray = None ->
  nearest_hit ray (mkScene (os1 ++ o :: os2)) =
  nearest_hit ray (mkScene (os1 ++ os2)).
Proof.
  intros H. unfold nearest_hit, nearest_loop. simpl objs.
  rewrite !fold_left_app. cbn [fold_left].
  rewrite (nearest_step_missed _ _ _ H). reflexivity.
Qed.

Lemma nearest_hit_drops_missed_witness :
  nearest_hit ray_away (mkScene ([back_sphere] ++ red_sphere :: [])) =
  nearest_hit ray_away (mkScene ([back_sphere] ++ [])).
Proof.
  apply nearest_hit_drops_missed. vm_compute. reflexivity.
Defined.

(** X17: orienting a hit that is already oriented changes nothing. *)
Theorem orient_idempotent (ray : Ray) (h : Hit) :
  orient ray (orient ray h) = orient ray h.
Proof.
  unfold orient at 2 3.
  destruct (Vector3.dot (dir ray) (norm h) >? F32.of_int 0)%f32 eqn:Hpos.
  - unfold orient. simpl norm.
    pose proof (negof_positive _ _ (dot_neg_negof (dir ray) (norm h)) Hpos)
      as Hneg.
    replace (_ >? _)%f32 with false; [reflexivity|].
    symmetry. apply (ltb_antisym _ _ Hneg).
  - unfold orient. rewrite Hpos. reflexivity.
Qed.

(** ** The primary ray *)

Lemma div_minus_one_not_positive (len : float) :
  sign_clear len -> (F32.of_int (-1) / len >? F32.of_int 0)%f32 = false.
Proof.
  destruct len as [s|s| |s m e]; simpl; try reflexivity; intros ->;
    try reflexivity.
  change (F32.of_int (-1)) with (S754_finite true 8388608 (-23)).
  unfold F32.div, SFdiv.
  destruct (SFdiv_core_binary _ _ _ _ _ _) as [[mz ez] lz].
  simpl xorb. rewrite <- (binary_round_aux_opp false).
  pose proof (binary_round_aux_sign_clear mz ez lz) as Hs.
  destruct (binary_round_aux F32.prec F32.emax false mz ez lz)
    as [s'|s'| |s' m' e']; simpl in *; subst; reflexivity.
Qed.

(** X11: a primary ray starts at the camera's position and never points
    towards +z: the z component of its direction is not above 0, whatever
    the coordinates and the factor. *)
Theorem primary_ray_looks_down_z (camera : Camera) (x y : float) :
  org (primary_ray camera x y) = camera_pos camera /\
  (z (dir (primary_ray camera x y)) >? F32.of_int 0)%f32 = false.
Proof.
  split; [reflexivity|].
  unfold primary_ray, Vector3.normalized, Vector3.div_scalar. simpl.
  apply div_minus_one_not_positive, sqrt_sign_clear.
  apply (sqr_length_sign_clear (mkVector3 _ _ _)).
Qed.

(** ** One channel of a pixel is one of 0..255 *)

Lemma digits2_pos_upper (m : positive) : Z.pos m < 2 ^ Z.pos (digits2_pos m).
Proof.
  induction m as [m IH|m IH|]; simpl digits2_pos;
    rewrite ?Pos2Z.inj_succ, ?Z.pow_succ_r by lia; lia.
Qed.

Lemma digits2_pos_lower (m : positive) :
  2 ^ (Z.pos (digits2_pos m) - 1) <= Z.pos m.
Proof.
  induction m as [m IH|m IH|]; simpl digits2_pos;
    rewrite ?Pos2Z.inj_succ; [| |simpl; lia];
    replace (Z.succ (Z.pos (digits2_pos m)) - 1)
      with (Z.succ (Z.pos (digits2_pos m) - 1)) by lia;
    rewrite Z.pow_succ_r by lia; lia.
Qed.

Lemma shr_1_div2 mrs :
  0 <= shr_m mrs -> shr_m (shr_1 mrs) = shr_m mrs / 2.
Proof.
  destruct mrs as [m r s]. simpl.
  destruct m as [|[p|p|]|p]; simpl; intros H; try reflexivity; try lia.
  - rewrite Pos2Z.inj_xI. apply Z.div_unique with 1; lia.
  - rewrite Pos2Z.inj_xO. apply Z.div_unique with 0; lia.
Qed.

Lemma iter_shr_1_div k : forall mrs,
  0 <= shr_m mrs ->
  shr_m (iter_pos shr_1 k mrs) = shr_m mrs / 2 ^ Z.pos k.
Proof.
  induction k as [k IH|k IH|]; intros mrs H; cbn [iter_pos].
  - rewrite IH by (apply iter_shr_1_nonneg, shr_1_nonneg, H).
    rewrite IH by (apply shr_1_nonneg, H).
    rewrite shr_1_div2 by assumption.
    rewrite !Z.div_div by (try apply Z.pow_pos_nonneg; lia).
    f_equal. change (Z.pos k~1) with (2 * Z.pos k + 1).
    replace (2 * Z.pos k + 1) with (1 + Z.pos k + Z.pos k) by lia.
    rewrite !Z.pow_add_r by lia. lia.
  - rewrite IH by (apply iter_shr_1_nonneg, H).
    rewrite IH by assumption.
    rewrite !Z.div_div by (try apply Z.pow_pos_nonneg; lia).
    f_equal. change (Z.pos k~0) with (2 * Z.pos k).
    replace (2 * Z.pos k) with (Z.pos k + Z.pos k) by lia.
    rewrite !Z.pow_add_r by lia. lia.
  - apply shr_1_div2, H.
Qed.

Lemma shr_record_of_loc_m m l : shr_m (shr_record_of_loc m l) = m.
Proof. destruct l as [|[| |]]; reflexivity. Qed.

Lemma Zdigits2_small m e :
  0 <= m -> e <= 0 -> m < 2 ^ (8 - e) -> Zdigits2 m + e <= 8.
Proof.
  intros Hm He Hlt. destruct m as [|p|p]; cbn [Zdigits2]; try lia.
  pose proof (digits2_pos_lower p) as Hlow.
  assert (H : 2 ^ (Z.pos (digits2_pos p) - 1) < 2 ^ (8 - e)) by lia.
  assert (H' : Z.pos (digits2_pos p) - 1 < 8 - e)
    by (apply (Z.pow_lt_mono_r_iff 2); [lia|lia|exact H]).
  lia.
Qed.

(** A shift of [shr_fexp] on a number below 256: the exponent stays at most
    0 and the mantissa is divided by the power of 2 that was added. *)
Lemma shr_fexp_small m e l :
  0 <= m -> e <= 0 -> m < 2 ^ (8 - e) ->
  let '(mrs, e') := shr_fexp F32.prec F32.emax m e l in
  e <= e' /\ e' <= 0 /\ shr_m mrs = m / 2 ^ (e' - e).
Proof.
  intros Hm He Hlt. pose proof (Zdigits2_small m e Hm He Hlt) as Hd.
  unfold shr_fexp, shr.
  destruct (fexp F32.prec F32.emax (Zdigits2 m + e) - e) as [|k|k] eqn:Hk.
  - rewrite shr_record_of_loc_m, Z.sub_diag, Z.div_1_r. lia.
  - rewrite iter_shr_1_div by (rewrite shr_record_of_loc_m; assumption).
    rewrite shr_record_of_loc_m.
    replace (e + Z.pos k - e) with (Z.pos k) by lia.
    unfold fexp, emin, F32.prec, F32.emax in Hk. lia.
  - rewrite shr_record_of_loc_m, Z.sub_diag, Z.div_1_r. lia.
Qed.

Lemma round_nearest_even_bounds m l :
  m <= round_nearest_even m l <= m + 1.
Proof.
  unfold round_nearest_even.
  destruct l as [|[| |]]; try destruct (Z.even m); lia.
Qed.

Lemma pow2_split a b : 0 <= a -> 0 <= b -> 2 ^ (a + b) = 2 ^ a * 2 ^ b.
Proof. intros. apply Z.pow_add_r; assumption. Qed.

Lemma div_pow2_lt m c e e' :
  e <= e' -> e' <= 0 -> m < c * 2 ^ (- e) -> m / 2 ^ (e' - e) < c * 2 ^ (- e').
Proof.
  intros H1 H2 H.
  apply Z.div_lt_upper_bound; [apply Z.pow_pos_nonneg; lia|].
  replace (- e) with ((e' - e) + (- e')) in H by lia.
  rewrite pow2_split in H by lia. lia.
Qed.

Lemma div_pow2_le m c e e' :
  e <= e' -> e' <= 0 -> m <= c * 2 ^ (- e) ->
  m / 2 ^ (e' - e) <= c * 2 ^ (- e').
Proof.
  intros H1 H2 H.
  apply Z.div_le_upper_bound; [apply Z.pow_pos_nonneg; lia|].
  replace (- e) with ((e' - e) + (- e')) in H by lia.
  rewrite pow2_split in H by lia. lia.
Qed.

(** Rounding a positive number below 255 gives a number that converts to
    one of 0..255. *)
Lemma round_below_255 (M : positive) (E : Z) :
  E <= 0 -> Z.pos M < 255 * 2 ^ (- E) ->
  exists b,
    to_uchar (binary_round_aux F32.prec F32.emax false (Z.pos M) E loc_Exact)
      = Some b /\ 0 <= b <= 255.
Proof.
  intros HE HM.
  assert (Hp : forall e, e <= 0 -> 0 < 2 ^ (- e))
    by (intros; apply Z.pow_pos_nonneg; lia).
  assert (H8 : forall e, e <= 0 -> 2 ^ (8 - e) = 256 * 2 ^ (- e)).
  { intros e He. replace (8 - e) with (8 + - e) by lia.
    rewrite pow2_split by lia. reflexivity. }
  unfold binary_round_aux.
  pose proof (shr_fexp_small (Z.pos M) E loc_Exact) as H1.
  destruct (shr_fexp F32.prec F32.emax (Z.pos M) E loc_Exact) as [mrs1 e1].
  destruct H1 as (H1a & H1b & H1c);
    [lia|lia|rewrite H8 by lia; specialize (Hp E HE); lia|].
  pose proof (div_pow2_lt _ 255 _ _ H1a H1b HM) as Hq. rewrite <- H1c in Hq.
  assert (Hq0 : 0 <= shr_m mrs1)
    by (rewrite H1c; apply Z.div_pos; [lia|apply Z.pow_pos_nonneg; lia]).
  pose proof (round_nearest_even_bounds (shr_m mrs1)
                (loc_of_shr_record mrs1)) as Hr.
  set (q1 := round_nearest_even (shr_m mrs1) (loc_of_shr_record mrs1)) in *.
  pose proof (shr_fexp_small q1 e1 loc_Exact) as H2.
  destruct (shr_fexp F32.prec F32.emax q1 e1 loc_Exact) as [mrs2 e2].
  destruct H2 as (H2a & H2b & H2c);
    [lia|lia|rewrite H8 by lia; specialize (Hp e1 H1b); lia|].
  assert (Hq1 : q1 <= 255 * 2 ^ (- e1)) by lia.
  pose proof (div_pow2_le _ 255 _ _ H2a H2b Hq1) as Hm2.
  rewrite <- H2c in Hm2.
  assert (Hm20 : 0 <= shr_m mrs2)
    by (rewrite H2c; apply Z.div_pos; [lia|apply Z.pow_pos_nonneg; lia]).
  destruct (shr_m mrs2) as [|m2|m2]; [| |lia].
  - exists 0. split; [reflexivity|lia].
  - replace (e2 <=? F32.emax - F32.prec) with true
      by (symmetry; apply Z.leb_le; unfold F32.emax, F32.prec; lia).
    unfold to_uchar, cond_Zopp.
    rewrite Z.shiftl_div_pow2 by lia.
    assert (Hb : 0 <= Z.pos m2 / 2 ^ (- e2) <= 255).
    { split; [apply Z.div_pos; [lia|apply Hp; lia]|].
      apply Z.div_le_upper_bound; [apply Hp; lia|lia]. }
    exists (Z.pos m2 / 2 ^ (- e2)).
    replace ((0 <=? _) && (_ <=? 255)) with true; [split; [reflexivity|lia]|].
    symmetry. apply andb_true_intro. split; apply Z.leb_le; lia.
Qed.

Lemma valid_below_one_mantissa (m : positive) (e : Z) :
  F32.valid (S754_finite false m e) = true ->
  (S754_finite false m e <? F32.of_int 1)%f32 = true ->
  e <= -23 /\ Z.pos m < 2 ^ (- e).
Proof.
  intros Hv Hlt.
  change (F32.of_int 1) with (S754_finite false 8388608 (-23)) in Hlt.
  unfold F32.ltb, SFltb in Hlt. rewrite SFcompare_finite in Hlt.
  unfold fcmp in Hlt.
  unfold F32.valid, valid_binary, bounded, canonical_mantissa in Hv.
  apply andb_prop in Hv as [Hc _]. apply Z.eqb_eq in Hc.
  unfold fexp, emin, F32.prec, F32.emax in Hc.
  pose proof (digits2_pos_upper m) as Hup.
  destruct (Z.compare_spec e (-23)) as [He|He|He]; try discriminate.
  - subst e. clear Hc Hup. split; [lia|].
    destruct (Pos.compare_spec m 8388608) as [|Hm|]; try discriminate.
    change (2 ^ (- -23)) with (Z.pos 8388608). exact Hm.
  - split; [lia|].
    assert (H24 : 2 ^ Z.pos (digits2_pos m) <= 2 ^ 24)
      by (apply Z.pow_le_mono_r; lia).
    assert (He24 : 2 ^ 24 <= 2 ^ (- e)) by (apply Z.pow_le_mono_r; lia).
    lia.
Qed.

Lemma channel_in_range_core (p : float) :
  F32.valid p = true -> sign_clear p ->
  exists b,
    channel p = Some b /\ 0 <= b <= 255 /\
    ((p <? F32.of_int 1)%f32 = false -> b = 255).
Proof.
  intros Hv Hs. unfold channel, fmin.
  destruct (p <? F32.of_int 1)%f32 eqn:Hlt.
  - destruct p as [s|s| |s m e]; simpl in Hs; subst; try discriminate Hlt.
    + exists 0. split; [reflexivity|]. split; [lia|discriminate].
    + destruct (valid_below_one_mantissa m e Hv Hlt) as [He Hm].
      change (F32.of_int 255) with (S754_finite false 16711680 (-16)).
      unfold F32.mul, SFmul. simpl xorb.
      destruct (round_below_255 (m * 16711680) (e + -16)) as (b & Hb & Hr).
      * lia.
      * replace (- (e + -16)) with (16 + - e) by lia.
        rewrite pow2_split by lia. change (2 ^ 16) with 65536.
        rewrite Pos2Z.inj_mul. lia.
      * exists b. split; [exact Hb|]. split; [exact Hr|discriminate].
  - exists 255. split; [vm_compute; reflexivity|]. split; [lia|reflexivity].
Qed.

(** X12: a channel that is a NaN or a number of the format with a clear
    sign bit (+0, a positive number, +infinity) is written as one of
    0..255, and as 255 as soon as it is not below 1: the conversion to
    [unsigned char] is defined. *)
Theorem channel_in_range (p : float) :
  F32.valid p = true -> sign_clear p ->
  exists b,
    channel p = Some b /\ 0 <= b <= 255 /\
    ((p <? F32.of_int 1)%f32 = false -> b = 255).
Proof. apply channel_in_range_core. Qed.

Lemma channel_in_range_witness :
  (exists b, channel (decimal 32 100) = Some b /\ 0 <= b <= 255 /\
     ((decimal 32 100 <? F32.of_int 1)%f32 = false -> b = 255)) /\
  channel (decimal 32 100) = Some 81 /\
  channel (F32.of_int 3) = Some 255 /\
  channel (F32.of_int (-1)) = None.
Proof.
  split; [|repeat split; vm_compute; reflexivity].
  apply channel_in_range; [vm_compute; reflexivity|reflexivity].
Defined.

(** ** [Canvas::draw] fills the canvas *)

Section ListSet.

Context {A : Type}.

Lemma list_set_mid (l1 l2 : list A) (a b : A) :
  list_set (l1 ++ a :: l2) (List.length l1) b = Some (l1 ++ b :: l2).
Proof.
  unfold list_set.
  replace (_ <? _)%nat with true
    by (symmetry; apply Nat.ltb_lt; rewrite length_app; simpl; lia).
  rewrite firstn_app, Nat.sub_diag, firstn_all, app_nil_r.
  rewrite skipn_app, skipn_all2 by lia.
  replace (S (List.length l1) - List.length l1)%nat with 1%nat by lia.
  reflexivity.
Qed.

Lemma nth_error_mid (l1 l2 : list A) (a : A) :
  nth_error (l1 ++ a :: l2) (List.length l1) = Some a.
Proof. rewrite nth_error_app2, Nat.sub_diag by lia. reflexivity. Qed.

Lemma fill_seq (f : nat -> A) : forall n done rest,
  List.length rest = n ->
  fill f (seq (List.length done) n) (done ++ rest) =
  Some (done ++ map f (seq (List.length done) n)).
Proof.
  induction n as [|n IH]; intros done rest Hn.
  - destruct rest; [|discriminate]. reflexivity.
  - destruct rest as [|a rest]; [discriminate|].
    cbn [seq fill map]. rewrite list_set_mid.
    replace (done ++ f (List.length done) :: rest)
      with ((done ++ [f (List.length done)]) ++ rest)
      by (rewrite <- app_assoc; reflexivity).
    replace (S (List.length done))
      with (List.length (done ++ [f (List.length done)]))
      by (rewrite length_app; simpl; lia).
    rewrite IH by (simpl in Hn; lia).
    rewrite <- app_assoc. reflexivity.
Qed.

End ListSet.

Lemma draw_rows_column render c l1 l2 : forall rows col,
  draw_rows render c (List.length l1) rows (l1 ++ col :: l2) =
  option_map (fun col' => l1 ++ col' :: l2)
    (fill (fun j => render (pixel_x c (Z.of_nat (List.length l1)))
                           (pixel_y c (Z.of_nat j)))
          rows col).
Proof.
  induction rows as [|j rows IH]; intros col; [reflexivity|].
  cbn [draw_rows fill]. cbv zeta. unfold set_pixel.
  rewrite nth_error_mid.
  destruct (list_set col j _) as [col'|]; [|reflexivity].
  rewrite list_set_mid. apply IH.
Qed.

Lemma draw_cols_picture render c : forall n done rest,
  List.length rest = n ->
  Forall (fun col => List.length col = Z.to_nat (height c)) rest ->
  draw_cols render c (seq (List.length done) n) (done ++ rest) =
  Some (done ++
        map (fun i =>
               map (fun j => render (pixel_x c (Z.of_nat i))
                                    (pixel_y c (Z.of_nat j)))
                   (seq 0 (Z.to_nat (height c))))
            (seq (List.length done) n)).
Proof.
  induction n as [|n IH]; intros done rest Hn Hrest.
  - destruct rest; [|discriminate]. reflexivity.
  - destruct rest as [|col rest]; [discriminate|].
    inversion Hrest as [|? ? Hcol Hrest']; subst.
    cbn [seq draw_cols map]. rewrite draw_rows_column.
    rewrite (fill_seq _ _ [] col Hcol). cbn [option_map app List.length].
    set (new := map _ (seq 0 _)).
    replace (done ++ new :: rest) with ((done ++ [new]) ++ rest)
      by (rewrite <- app_assoc; reflexivity).
    replace (S (List.length done)) with (List.length (done ++ [new]))
      by (rewrite length_app; simpl; lia).
    rewrite IH by (simpl in Hn; try lia; assumption).
    rewrite <- app_assoc. reflexivity.
Qed.

Lemma picture_wf c render :
  Canvas_wf (mkCanvas (width c) (height c) (picture c render)).
Proof.
  unfold Canvas_wf, picture. simpl. split.
  - rewrite length_map, length_seq. reflexivity.
  - apply Forall_forall. intros col Hcol. apply in_map_iff in Hcol.
    destruct Hcol as (i & <- & _). rewrite length_map, length_seq.
    reflexivity.
Qed.

Lemma draw_picture (c : Canvas) (render : float -> float -> Color) :
  Canvas_wf c ->
  draw c render = Some (mkCanvas (width c) (height c) (picture c render)).
Proof.
  intros [Hlen Hcols].
  pose proof (draw_cols_picture render c _ [] (pixel c) Hlen Hcols) as H.
  cbn [List.length app] in H. unfold draw, picture. rewrite H.
  reflexivity.
Qed.

(** X13: on a canvas whose vectors have the sizes [width] and [height],
    [draw] indexes no vector out of range and leaves the sizes as they are;
    afterwards every pixel holds what [render] returns at its coordinates,
    whatever the canvas held before. *)
Theorem draw_fills_canvas (c : Canvas) (render : float -> float -> Color) :
  Canvas_wf c ->
  draw c render = Some (mkCanvas (width c) (height c) (picture c render)) /\
  Canvas_wf (mkCanvas (width c) (height c) (picture c render)).
Proof.
  intros Hwf. split; [apply draw_picture, Hwf|apply picture_wf].
Qed.

Lemma Canvas_new_wf uninit w h c :
  Canvas_new uninit w h = Some c ->
  width c = w /\ height c = h /\ Canvas_wf c.
Proof.
  unfold Canvas_new. destruct (_ || _); [discriminate|].
  intros H. injection H as <-. unfold Canvas_wf. simpl.
  split; [reflexivity|]. split; [reflexivity|]. split.
  - rewrite length_map, length_seq. reflexivity.
  - apply Forall_forall. intros col Hcol. apply in_map_iff in Hcol.
    destruct Hcol as (i & <- & _). rewrite length_map, length_seq.
    reflexivity.
Qed.

(** ** [Canvas::save] writes every pixel *)

Lemma save_pixel_displayable (p : Color) :
  displayable p ->
  exists r g b,
    channel (x p) = Some r /\ channel (y p) = Some g /\
    channel (z p) = Some b /\
    save_pixel p = Some [put_uchar r; put_uchar g; put_uchar b].
Proof.
  intros ([Hxv Hxs] & [Hyv Hys] & [Hzv Hzs]).
  destruct (channel_in_range_core (x p) Hxv Hxs) as (r & Hr & _).
  destruct (channel_in_range_core (y p) Hyv Hys) as (g & Hg & _).
  destruct (channel_in_range_core (z p) Hzv Hzs) as (b & Hb & _).
  exists r, g, b. unfold save_pixel. rewrite Hr, Hg, Hb. auto.
Qed.

Lemma save_row_spec (c : Canvas) (j : nat) : forall cols,
  (forall i, In i cols ->
     exists p, pixel_at c i j = Some p /\ displayable p) ->
  exists out,
    save_row c j cols = Some out /\
    List.length out = (3 * List.length cols)%nat /\
    forall n i p, nth_error cols n = Some i -> pixel_at c i j = Some p ->
      pixel_written out (3 * n) p.
Proof.
  induction cols as [|i cols IH]; intros Hall.
  - exists []. split; [reflexivity|]. split; [reflexivity|].
    intros [|n] i p Hn; discriminate.
  - destruct (Hall i (or_introl eq_refl)) as (p & Hp & Hd).
    destruct (save_pixel_displayable p Hd) as (r & g & b & Hr & Hg & Hb & Hs).
    destruct IH as (out' & Hout' & Hlen & Hat).
    { intros i' Hi'. apply Hall. right. assumption. }
    exists ([put_uchar r; put_uchar g; put_uchar b] ++ out').
    cbn [save_row]. rewrite Hp, Hs, Hout'.
    split; [reflexivity|]. split; [simpl; lia|].
    intros [|n] i' p' Hn Hp'.
    + injection Hn as <-. rewrite Hp in Hp'. injection Hp' as <-.
      unfold pixel_written. simpl. rewrite Hr, Hg, Hb. auto.
    + simpl in Hn. specialize (Hat n i' p' Hn Hp').
      replace (3 * S n)%nat with (S (S (S (3 * n)))) by lia.
      exact Hat.
Qed.

Lemma pixel_written_app_l out out' k p :
  (S (S k) < List.length out)%nat ->
  pixel_written out k p -> pixel_written (out ++ out') k p.
Proof.
  unfold pixel_written. intros Hk H.
  rewrite !nth_error_app1 by lia. exact H.
Qed.

Lemma pixel_written_app_r out out' k p :
  pixel_written out' k p ->
  pixel_written (out ++ out') (List.length out + k) p.
Proof.
  unfold pixel_written. intros H.
  replace (S (List.length out + k)) with (List.length out + S k)%nat by lia.
  replace (S (List.length out + S k))
    with (List.length out + S (S k))%nat by lia.
  rewrite !nth_error_app2 by lia.
  replace (List.length out + k - List.length out)%nat with k by lia.
  replace (List.length out + S k - List.length out)%nat with (S k) by lia.
  replace (List.length out + S (S k) - List.length out)%nat
    with (S (S k)) by lia.
  exact H.
Qed.

Lemma nth_error_seq_lt a n k :
  (k < n)%nat -> nth_error (seq a n) k = Some (a + k)%nat.
Proof.
  revert a k. induction n as [|n IH]; intros a k Hk; [lia|].
  destruct k as [|k]; simpl.
  - f_equal. lia.
  - rewrite IH by lia. f_equal. lia.
Qed.

Lemma save_rows_spec (c : Canvas) : forall rows,
  (forall j i, In j rows -> (i < Z.to_nat (width c))%nat ->
     exists p, pixel_at c i j = Some p /\ displayable p) ->
  exists out,
    save_rows c rows = Some out /\
    List.length out = (3 * Z.to_nat (width c) * List.length rows)%nat /\
    forall m j i p, nth_error rows m = Some j ->
      (i < Z.to_nat (width c))%nat -> pixel_at c i j = Some p ->
      pixel_written out (3 * (m * Z.to_nat (width c) + i)) p.
Proof.
  set (w := Z.to_nat (width c)).
  induction rows as [|j rows IH]; intros Hall.
  - exists []. split; [reflexivity|]. split; [simpl; lia|].
    intros [|m] j i p Hm; discriminate.
  - destruct (save_row_spec c j (seq 0 w)) as (row & Hrow & Hrlen & Hrat).
    { intros i Hi. apply in_seq in Hi. apply Hall; [left; reflexivity|lia]. }
    rewrite length_seq in Hrlen.
    destruct IH as (out' & Hout' & Hlen & Hat).
    { intros j' i Hj' Hi. apply Hall; [right|]; assumption. }
    exists (row ++ out'). cbn [save_rows]. fold w. rewrite Hrow, Hout'.
    split; [reflexivity|]. split; [rewrite length_app; simpl; nia|].
    intros [|m] j' i p Hm Hi Hp.
    + injection Hm as <-. simpl.
      apply pixel_written_app_l; [lia|].
      apply (Hrat i i p); [|assumption].
      rewrite nth_error_seq_lt by assumption. reflexivity.
    + simpl in Hm. specialize (Hat m j' i p Hm Hi Hp).
      replace (3 * (S m * w + i))%nat
        with (List.length row + 3 * (m * w + i))%nat by nia.
      apply pixel_written_app_r, Hat.
Qed.

Lemma pixel_at_wf (c : Canvas) (i j : nat) :
  Canvas_wf c -> (i < Z.to_nat (width c))%nat ->
  (j < Z.to_nat (height c))%nat ->
  exists p, pixel_at c i j = Some p.
Proof.
  intros [Hlen Hcols] Hi Hj. unfold pixel_at.
  destruct (nth_error (pixel c) i) as [col|] eqn:Hcol.
  - assert (Hc : List.length col = Z.to_nat (height c)).
    { rewrite Forall_forall in Hcols. apply Hcols.
      eapply nth_error_In, Hcol. }
    destruct (nth_error col j) as [p|] eqn:Hp; [eauto|].
    apply nth_error_None in Hp. lia.
  - apply nth_error_None in Hcol. lia.
Qed.

Lemma save_layout_core (c : Canvas) :
  Canvas_wf c ->
  (forall i j p, pixel_at c i j = Some p -> displayable p) ->
  exists body,
    save c = Some (header c ++ body) /\
    List.length body =
      (3 * Z.to_nat (width c) * Z.to_nat (height c))%nat /\
    forall i j p,
      (i < Z.to_nat (width c))%nat -> (j < Z.to_nat (height c))%nat ->
      pixel_at c i j = Some p ->
      pixel_written body (3 * (j * Z.to_nat (width c) + i)) p.
Proof.
  intros Hwf Hdisp.
  destruct (save_rows_spec c (seq 0 (Z.to_nat (height c))))
    as (body & Hbody & Hlen & Hat).
  { intros j i Hj Hi. apply in_seq in Hj.
    destruct (pixel_at_wf c i j Hwf Hi) as [p Hp]; [lia|].
    exists p. split; [assumption|]. eapply Hdisp, Hp. }
  exists body. unfold save. rewrite Hbody. split; [reflexivity|].
  rewrite length_seq in Hlen. split; [assumption|].
  intros i j p Hi Hj Hp. apply (Hat j j i p); try assumption.
  rewrite nth_error_seq_lt by assumption. reflexivity.
Qed.

(** X15: when the vectors of the canvas have the sizes [width] and
    [height] and every component of every pixel is a NaN or a number of
    the format with a clear sign bit, [save] indexes no vector out of
    range and converts no value that does not fit: it writes the header
    and then 3 * width * height characters, row after row, the three
    characters of [pixel[i][j]] at the offset 3 * (j * width + i). *)
Theorem save_layout (c : Canvas) :
  Canvas_wf c ->
  (forall i j p, pixel_at c i j = Some p -> displayable p) ->
  exists body,
    save c = Some (header c ++ body) /\
    List.length body =
      (3 * Z.to_nat (width c) * Z.to_nat (height c))%nat /\
    forall i j p,
      (i < Z.to_nat (width c))%nat -> (j < Z.to_nat (height c))%nat ->
      pixel_at c i j = Some p ->
      pixel_written body (3 * (j * Z.to_nat (width c) + i)) p.
Proof. apply save_layout_core. Qed.

Lemma pixel_at_picture c render i j p :
  pixel_at (mkCanvas (width c) (height c) (picture c render)) i j = Some p ->
  p = render (pixel_x c (Z.of_nat i)) (pixel_y c (Z.of_nat j)).
Proof.
  unfold pixel_at, picture. simpl. rewrite nth_error_map.
  destruct (nth_error (seq 0 (Z.to_nat (width c))) i) as [i'|] eqn:Hi;
    [|discriminate].
  simpl. rewrite nth_error_map.
  destruct (nth_error (seq 0 (Z.to_nat (height c))) j) as [j'|] eqn:Hj;
    [|discriminate].
  assert (Hi' : (i < List.length (seq 0 (Z.to_nat (width c))))%nat)
    by (apply nth_error_Some; congruence).
  assert (Hj' : (j < List.length (seq 0 (Z.to_nat (height c))))%nat)
    by (apply nth_error_Some; congruence).
  rewrite length_seq in Hi', Hj'.
  rewrite nth_error_seq_lt in Hi, Hj by assumption. simpl in Hi, Hj.
  injection Hi as <-. injection Hj as <-. simpl. congruence.
Qed.

Lemma pixel_at_picture_some c render i j :
  (i < Z.to_nat (width c))%nat -> (j < Z.to_nat (height c))%nat ->
  pixel_at (mkCanvas (width c) (height c) (picture c render)) i j =
  Some (render (pixel_x c (Z.of_nat i)) (pixel_y c (Z.of_nat j))).
Proof.
  intros Hi Hj. unfold pixel_at, picture. simpl.
  rewrite nth_error_map, nth_error_seq_lt by assumption. simpl.
  rewrite nth_error_map, nth_error_seq_lt by assumption. reflexivity.
Qed.

(** X16: a canvas made by the constructor, drawn with a [render] whose
    colours have no negative component, and saved: no access is out of
    range and no conversion undefined; after the header come
    3 * width * height characters, and those of column [i], row [j], at the
    offset 3 * (j * width + i), are the channels of the colour [render]
    returned for that pixel.  Nothing of the uninitialised contents of the
    canvas is written. *)
Theorem draw_then_save uninit w h c render :
  Canvas_new uninit w h = Some c ->
  (forall x y, displayable (render x y)) ->
  exists c' body,
    draw c render = Some c' /\
    save c' = Some (header c ++ body) /\
    List.length body = (3 * Z.to_nat w * Z.to_nat h)%nat /\
    forall i j, (i < Z.to_nat w)%nat -> (j < Z.to_nat h)%nat ->
      pixel_written body (3 * (j * Z.to_nat w + i))
        (render (pixel_x c (Z.of_nat i)) (pixel_y c (Z.of_nat j))).
Proof.
  intros Hc Hrender.
  destruct (Canvas_new_wf _ _ _ _ Hc) as (Hw & Hh & Hwf).
  set (c' := mkCanvas (width c) (height c) (picture c render)).
  destruct (save_layout_core c') as (body & Hsave & Hlen & Hat).
  - apply picture_wf.
  - intros i j p Hp. rewrite (pixel_at_picture _ _ _ _ _ Hp). apply Hrender.
  - exists c', body. subst w h. simpl in Hlen, Hat.
    split; [apply draw_picture, Hwf|]. split; [exact Hsave|].
    split; [exact Hlen|].
    intros i j Hi Hj. apply Hat; try assumption.
    apply pixel_at_picture_some; assumption.
Qed.

Lemma draw_then_save_witness :
  exists c' body,
    draw (mkCanvas 2 1 [[vec3 7 7 7]; [vec3 7 7 7]])
         (fun _ _ => vec3 1 0 3) = Some c' /\
    save c' =
      Some (header (mkCanvas 2 1 [[vec3 7 7 7]; [vec3 7 7 7]]) ++ body) /\
    List.length body = 6%nat /\
    forall i j, (i < 2)%nat -> (j < 1)%nat ->
      pixel_written body (3 * (j * 2 + i)) (vec3 1 0 3).
Proof.
  apply (draw_then_save (fun _ _ => vec3 7 7 7) 2 1
           (mkCanvas 2 1 [[vec3 7 7 7]; [vec3 7 7 7]])
           (fun _ _ => vec3 1 0 3)).
  - reflexivity.
  - intros _ _. repeat split.
Defined.

Lemma draw_fills_canvas_witness :
  draw (mkCanvas 2 1 [[vec3 7 7 7]; [vec3 7 7 7]])
       (fun a b => mkVector3 a b (F32.of_int 0)) =
  Some (mkCanvas 2 1
          [[mkVector3 (F32.of_int (-2)) (F32.of_int 1) (F32.of_int 0)];
           [mkVector3 (F32.of_int 0) (F32.of_int 1) (F32.of_int 0)]]).
Proof.
  refine (eq_trans
            (proj1 (draw_fills_canvas
                      (mkCanvas 2 1 [[vec3 7 7 7]; [vec3 7 7 7]])
                      (fun a b => mkVector3 a b (F32.of_int 0)) _)) _).
  - split; [reflexivity|repeat constructor].
  - vm_compute. reflexivity.
Defined.

Lemma save_layout_witness :
  exists body,
    save (mkCanvas 1 2 [[vec3 0 1 3; mkVector3 (decimal 32 100) F32.nan
                                              F32.infinity]]) =
      Some (header (mkCanvas 1 2 [[vec3 0 1 3;
                                   mkVector3 (decimal 32 100) F32.nan
                                             F32.infinity]]) ++ body) /\
    List.length body = 6%nat.
Proof.
  destruct (save_layout
              (mkCanvas 1 2 [[vec3 0 1 3;
                              mkVector3 (decimal 32 100) F32.nan
                                        F32.infinity]]))
    as (body & Hsave & Hlen & _).
  - split; [reflexivity|repeat constructor].
  - intros i j p H. unfold pixel_at in H.
    destruct i as [|[|i]], j as [|[|[|j]]]; simpl in H;
      try discriminate H; injection H as <-; vm_compute; repeat split.
  - exists body. split; [exact Hsave|exact Hlen].
Defined.
